(** * A layered configuration container: embedding and verification

    The Go package [config] wraps a [*viper.Viper] settings store in a
    [Container], builds containers from files, readers and embedded assets
    ([Load], [LoadEmbed], [NewFilesContainer], [NewReaderContainer]), hands
    out subtree containers ([Sub]) and notifies registered observers when the
    watched file changes ([watchConfig]).

    Layout of the development:
    - [GoBase]: errors, results, log records, ASCII string helpers;
    - [Store]: the settings store the package calls into (nested maps, the
      store's merge, its file and reader operations, [Sub], the watch);
    - [Heap]: the mutable world: containers behind pointers, observer slices
      over backing arrays, the log; a state monad with panics;
    - [Config]: the package's functions, line by line;
    - [Round]: the goroutine fan-out of one change event as a step relation;
    - theorems. *)

From Stdlib Require Import ZArith Lia Ascii String.
From stdpp Require Import base option list gmap strings fin_maps pretty.

Set Default Proof Using "Type".

(** ** Errors, results and log records *)

Module GoBase.

(** Go [error] values, as far as the package can tell them apart.
    [EWrap] is go-errors' [*Error]: it wraps an inner error, with an optional
    prefix ([errors.New(err)] and [errors.Wrap(err, 0)] give no prefix,
    [errors.WrapPrefix(err, prefix, 0)] gives one). *)
Inductive error : Type :=
| ErrNoFilesFound
| PathError (op path : string)
| ConfigFileNotFoundError
| ConfigParseError (msg : string)
| OtherError (msg : string)
| EWrap (prefix : option string) (inner : error).

Global Instance error_eq_dec : EqDecision error.
Proof. solve_decision. Defined.

(** [err.Error()]. *)
Fixpoint error_string (e : error) : string :=
  match e with
  | ErrNoFilesFound =>
      "no configuration files found please run init, or provide a config file using the --config flag"
  | PathError op path => op +:+ " " +:+ path +:+ ": file does not exist"
  | ConfigFileNotFoundError => "Config File Not Found"
  | ConfigParseError msg => "While parsing config: " +:+ msg
  | OtherError msg => msg
  | EWrap None inner => error_string inner
  | EWrap (Some p) inner => p +:+ ": " +:+ error_string inner
  end.

(** [errors.Is(err, target)]: [target] is somewhere on the unwrap chain. *)
Fixpoint errors_Is (e target : error) : bool :=
  if decide (e = target) then true
  else match e with
       | EWrap _ inner => errors_Is inner target
       | _ => false
       end.

(** [errors.As(err, &pathError)] for [*os.PathError]. *)
Fixpoint errors_As_PathError (e : error) : bool :=
  match e with
  | PathError _ _ => true
  | EWrap _ inner => errors_As_PathError inner
  | _ => false
  end.

(** A Go [(value, error)] pair of which exactly one side is meaningful. *)
Inductive Result (A : Type) : Type :=
| Ok (a : A)
| Err (e : error).
Global Arguments Ok {A} a.
Global Arguments Err {A} e.

(** [*slog.Logger] values are told apart by identity. *)
Definition Logger := nat.

Inductive Level := Debug | Info | Warn | Error.

Global Instance Level_eq_dec : EqDecision Level.
Proof. solve_decision. Defined.

(** One call of a logger method. The ["stacktrace"] attribute the package
    attaches to warnings and errors carries the call stack of the running
    process and is not part of the record. *)
Record LogRecord := mkLog {
  lr_logger : Logger;
  lr_level : Level;
  lr_msg : string
}.

(** [strings.ToLower] on ASCII letters. *)
Definition lower_ascii (c : Ascii.ascii) : Ascii.ascii :=
  let n := Ascii.nat_of_ascii c in
  if (65 <=? n)%nat && (n <=? 90)%nat then Ascii.ascii_of_nat (n + 32) else c.

Fixpoint ToLower (s : string) : string :=
  match s with
  | EmptyString => EmptyString
  | String c s' => String (lower_ascii c) (ToLower s')
  end.

(** [strings.Split(s, ".")]: the pieces between the dots, at least one. *)
Fixpoint split_dot_aux (cur : string) (s : string) : list string :=
  match s with
  | EmptyString => [String.rev cur]
  | String c s' =>
      if Ascii.eqb c "."%char then String.rev cur :: split_dot_aux EmptyString s'
      else split_dot_aux (String c cur) s'
  end.

Definition split_dot (s : string) : list string := split_dot_aux EmptyString s.

End GoBase.
Export GoBase.

(** ** The settings store

    The package keeps its settings in a [*viper.Viper]. The store is the
    third-party library [github.com/spf13/viper]; its source is not part of
    the package. What follows is the part of its behaviour the package
    relies on, under the store's own names: nested settings maps, the merge
    of one map into another, reading and merging a file or a reader, the
    subtree store, and the watch on the current config file. *)

Module Store.

Inductive Scalar :=
| SBool (b : bool)
| SInt (z : Z)
| SStr (s : string).

(** A decoded configuration value: a scalar, or a nested
    [map[string]any]. Go maps have one entry per key and no order, hence
    [gmap]. *)
#[warnings="-register-all"]
Inductive Value :=
| Leaf (x : Scalar)
| Map (m : gmap string Value).

Abbreviation Settings := (gmap string Value).

(** The file system capability ([afero.Fs]) as the package and the store use
    it: [Stat] answers [None] when the path exists and the error otherwise;
    [ReadFile] is [afero.ReadFile]. *)
Record Fs := mkFs {
  Stat : string → option error;
  ReadFile : string → Result string
}.

(** [mergeMaps(src, tgt, nil)]: the loop over the entries of [src].
    - key absent from [tgt]: [tgt[sk] = sv];
    - [tgt] holds a map there: merge into it when [sv] is a map too,
      otherwise log "Could not cast sv to map" and [continue];
    - [tgt] holds anything else: [tgt[tk] = sv].
    Keys are lower case on both sides (the store lower-cases what it
    decodes), so the case-insensitive [keyExists] is a plain lookup. *)
Fixpoint mergeInto (sv : Value) (tgt : Settings) {struct sv} : Settings :=
  match sv with
  | Leaf _ => tgt
  | Map src =>
      map_fold (λ sk sv' tgt,
        match tgt !! sk with
        | None => <[sk := sv']> tgt
        | Some (Map ttv) =>
            match sv' with
            | Map _ => <[sk := Map (mergeInto sv' ttv)]> tgt
            | Leaf _ => tgt
            end
        | Some (Leaf _) => <[sk := sv']> tgt
        end) tgt src
  end.

Definition mergeMaps (src tgt : Settings) : Settings := mergeInto (Map src) tgt.
Global Arguments mergeMaps : simpl never.

(** What [mergeMaps] leaves at one key, from what source and target hold
    there. *)
Definition mergedAt (s t : option Value) : option Value :=
  match s with
  | None => t
  | Some sv =>
      match t with
      | None => Some sv
      | Some (Map ttv) =>
          match sv with
          | Map tsv => Some (Map (mergeMaps tsv ttv))
          | Leaf _ => Some (Map ttv)
          end
      | Some (Leaf _) => Some sv
      end
  end.

(** The sources layered in order, each merged over what came before. *)
Definition layered (trees : list Settings) : Settings :=
  foldl (λ acc t, mergeMaps t acc) ∅ trees.

(** [searchMap(source, path)]: descend through nested maps. *)
Fixpoint searchMap (source : Settings) (path : list string) : option Value :=
  match path with
  | [] => Some (Map source)
  | k :: rest =>
      match source !! k with
      | Some next =>
          match rest with
          | [] => Some next
          | _ => match next with
                 | Map m => searchMap m rest
                 | Leaf _ => None
                 end
          end
      | None => None
      end
  end.

(** The callback the package registers with [OnConfigChange]: the closure of
    [watchConfig], which runs a notification round for container [c]. *)
Inductive Callback := NotifyObservers (c : nat).

(** The fields of a [viper.Viper] the package sets or reads. *)
Record Viper := mkViper {
  v_fs : Fs;
  v_automaticEnv : bool;
  v_envKeyReplacer : option (string * string);
  v_typeByDefValue : bool;
  v_configFile : string;
  v_configType : string;
  v_parents : list string;
  v_config : Settings;
  v_onConfigChange : option Callback;
  v_watching : option string
}.

Definition set_fs fs v := mkViper fs (v_automaticEnv v) (v_envKeyReplacer v)
  (v_typeByDefValue v) (v_configFile v) (v_configType v) (v_parents v)
  (v_config v) (v_onConfigChange v) (v_watching v).
Definition set_automaticEnv b v := mkViper (v_fs v) b (v_envKeyReplacer v)
  (v_typeByDefValue v) (v_configFile v) (v_configType v) (v_parents v)
  (v_config v) (v_onConfigChange v) (v_watching v).
Definition set_envKeyReplacer r v := mkViper (v_fs v) (v_automaticEnv v) r
  (v_typeByDefValue v) (v_configFile v) (v_configType v) (v_parents v)
  (v_config v) (v_onConfigChange v) (v_watching v).
Definition set_typeByDefValue b v := mkViper (v_fs v) (v_automaticEnv v)
  (v_envKeyReplacer v) b (v_configFile v) (v_configType v) (v_parents v)
  (v_config v) (v_onConfigChange v) (v_watching v).
Definition set_configFile f v := mkViper (v_fs v) (v_automaticEnv v)
  (v_envKeyReplacer v) (v_typeByDefValue v) f (v_configType v) (v_parents v)
  (v_config v) (v_onConfigChange v) (v_watching v).
Definition set_configType t v := mkViper (v_fs v) (v_automaticEnv v)
  (v_envKeyReplacer v) (v_typeByDefValue v) (v_configFile v) t (v_parents v)
  (v_config v) (v_onConfigChange v) (v_watching v).
Definition set_config cfg v := mkViper (v_fs v) (v_automaticEnv v)
  (v_envKeyReplacer v) (v_typeByDefValue v) (v_configFile v) (v_configType v)
  (v_parents v) cfg (v_onConfigChange v) (v_watching v).
Definition set_onConfigChange cb v := mkViper (v_fs v) (v_automaticEnv v)
  (v_envKeyReplacer v) (v_typeByDefValue v) (v_configFile v) (v_configType v)
  (v_parents v) (v_config v) cb (v_watching v).
Definition set_watching f v := mkViper (v_fs v) (v_automaticEnv v)
  (v_envKeyReplacer v) (v_typeByDefValue v) (v_configFile v) (v_configType v)
  (v_parents v) (v_config v) (v_onConfigChange v) f.

(** What the process runs on: the real file system behind
    [afero.NewOsFs()], the store's decoder, the runtime's slice growth and
    [encoding/json]. *)
Record Platform := mkPlatform {
  (** [afero.NewOsFs()] *)
  osFs : Fs;
  (** The store's [unmarshalReader]: format detection from the configured
      type or else the file name's extension, the supported-format check,
      decoding, lower-casing of the keys. Arguments: config type, config
      file name, content. *)
  decode : string → string → string → Result Settings;
  (** The capacity the runtime picks when [append] outgrows a backing array
      of the given capacity. *)
  growcap : nat → nat;
  (** [AllSettings()]: the store's own dump of everything it resolves. *)
  allSettings : Viper → Settings;
  (** [json.Marshal]: the encoding, or [nil] bytes and an error. *)
  json_Marshal : Settings → Result string
}.

Section store.
Context (Π : Platform).

(** [viper.New()] *)
Definition viper_New : Viper :=
  mkViper (osFs Π) false None false "" "" [] ∅ None None.

Definition SetFs (fs : Fs) (v : Viper) : Viper := set_fs fs v.
Definition AutomaticEnv (v : Viper) : Viper := set_automaticEnv true v.
Definition SetEnvKeyReplacer (old new : string) (v : Viper) : Viper :=
  set_envKeyReplacer (Some (old, new)) v.
Definition SetTypeByDefaultValue (b : bool) (v : Viper) : Viper :=
  set_typeByDefValue b v.

(** [SetConfigFile(in)]: an empty name is ignored. *)
Definition SetConfigFile (f : string) (v : Viper) : Viper :=
  if decide (f = "") then v else set_configFile f v.

(** [SetConfigType(in)]: an empty type is ignored. *)
Definition SetConfigType (t : string) (v : Viper) : Viper :=
  if decide (t = "") then v else set_configType t v.

(** [getConfigFile()]: the explicit config file; without one the store
    searches its config paths, of which the package sets none. *)
Definition getConfigFile (v : Viper) : Result string :=
  if decide (v_configFile v = "") then Err ConfigFileNotFoundError
  else Ok (v_configFile v).

(** Resolve, read and decode the current config file: the common first half
    of [ReadInConfig] and [MergeInConfig]. *)
Definition readConfigFile (v : Viper) : Result Settings :=
  match getConfigFile v with
  | Err e => Err e
  | Ok filename =>
      match ReadFile (v_fs v) filename with
      | Err e => Err e
      | Ok content => decode Π (v_configType v) filename content
      end
  end.

(** [MergeConfigMap(cfg)] *)
Definition MergeConfigMap (cfg : Settings) (v : Viper) : Viper :=
  set_config (mergeMaps cfg (v_config v)) v.

(** [ReadInConfig()]: on success the decoded map replaces the settings; on
    any failure the settings are left as they were. *)
Definition ReadInConfig (v : Viper) : Viper * option error :=
  match readConfigFile v with
  | Err e => (v, Some e)
  | Ok cfg => (set_config cfg v, None)
  end.

(** [MergeInConfig()] *)
Definition MergeInConfig (v : Viper) : Viper * option error :=
  match readConfigFile v with
  | Err e => (v, Some e)
  | Ok cfg => (MergeConfigMap cfg v, None)
  end.

(** [ReadConfig(in)]: the settings are reset to a fresh map, then the reader
    is decoded into it. A reader is modelled by its content. *)
Definition ReadConfig (content : string) (v : Viper) : Viper * option error :=
  match decode Π (v_configType v) (v_configFile v) content with
  | Err e => (set_config ∅ v, Some e)
  | Ok cfg => (set_config cfg v, None)
  end.

(** [MergeConfig(in)] *)
Definition MergeConfig (content : string) (v : Viper) : Viper * option error :=
  match decode Π (v_configType v) (v_configFile v) content with
  | Err e => (v, Some e)
  | Ok cfg => (MergeConfigMap cfg v, None)
  end.

(** [Get(key)] as far as the config file layer goes: the key is lower-cased,
    split at the delimiter and searched in the settings. Overrides, flags,
    environment and defaults are left out. *)
Definition Get (key : string) (v : Viper) : option Value :=
  searchMap (v_config v) (split_dot (ToLower key)).

(** [InConfig(key)] *)
Definition InConfig (key : string) (v : Viper) : bool :=
  bool_decide (is_Some (Get key v)).

(** [Sub(key)]: a new store over the nested map at [key]; [nil] when the key
    has no value or the value is not a map. *)
Definition Sub (key : string) (v : Viper) : option Viper :=
  match Get key v with
  | Some (Map m) =>
      Some (mkViper (osFs Π) (v_automaticEnv v) (v_envKeyReplacer v) false
              "" "" (v_parents v ++ [ToLower key]) m None None)
  | _ => None
  end.

(** [OnConfigChange(run)] *)
Definition OnConfigChange (cb : Callback) (v : Viper) : Viper :=
  set_onConfigChange (Some cb) v.

(** [WatchConfig()]: subscribes to changes of the current config file; with
    no config file it logs and gives up. *)
Definition WatchConfig (v : Viper) : Viper :=
  match getConfigFile v with
  | Err _ => v
  | Ok filename => set_watching (Some filename) v
  end.

End store.
End Store.
Export Store.

(** ** The mutable world

    Containers live behind pointers and are mutated in place
    ([AddObserver], the constructors); their observer lists are Go slices,
    that is a window on a backing array that [append] may write into or
    abandon for a larger one. Both are kept in explicit heaps so that sharing
    between two containers, if there were any, would show. *)

Module Heap.

(** A [func(Containable, chan error)] value, told apart by identity. *)
Definition Handler := nat.

(** Values of the interface [Observable]: [nil], the package's own
    [Observer{handler}], or some other implementation. *)
Inductive Observable :=
| ONil
| Observer (handler : Handler)
| Impl (id : nat).

Global Instance Observable_eq_dec : EqDecision Observable.
Proof. solve_decision. Defined.

(** A slice header: backing array, length, capacity. *)
Record slice := Slice { s_arr : nat; s_len : nat; s_cap : nat }.

(** [*Container] *)
Abbreviation ptr := nat.

(** [type Container struct]. The store pointer may be [nil]. *)
Record Container := mkContainer {
  ID : string;
  viper : option Viper;
  logger : Logger;
  observers : slice
}.

Record World := mkWorld {
  containers : list Container;
  arrays : list (list Observable);
  log : list LogRecord;
  (** names handed to the embedded reader's [ReadFile], in call order *)
  reads : list string
}.

Definition empty_world : World := mkWorld [] [] [] [].

(** A computation on the world; [None] is a run-time panic. *)
Definition M (A : Type) : Type := World → option (A * World).

Global Instance M_ret : MRet M := λ A a w, Some (a, w).
Global Instance M_bind : MBind M := λ A B k m w,
  match m w with
  | Some (a, w') => k a w'
  | None => None
  end.
Definition panic {A} : M A := λ _, None.

(** [for _, x := range xs { body }] *)
Fixpoint forM_ {A} (xs : list A) (body : A → M unit) : M unit :=
  match xs with
  | [] => mret tt
  | x :: rest => body x;; forM_ rest body
  end.

(** [for i, x := range xs { body }], counting from [i]. *)
Fixpoint forMi_ {A} (i : nat) (xs : list A) (body : nat → A → M unit) : M unit :=
  match xs with
  | [] => mret tt
  | x :: rest => body i x;; forMi_ (S i) rest body
  end.

(** [*c]: dereference. *)
Definition load (c : ptr) : M Container :=
  λ w, match containers w !! c with
       | Some x => Some (x, w)
       | None => None
       end.

(** [*c = x] *)
Definition store (c : ptr) (x : Container) : M unit :=
  λ w, match containers w !! c with
       | Some _ => Some (tt, mkWorld (<[c := x]> (containers w)) (arrays w) (log w) (reads w))
       | None => None
       end.

(** [&Container{...}]: a fresh object. *)
Definition new (x : Container) : M ptr :=
  λ w, Some (length (containers w),
             mkWorld (containers w ++ [x]) (arrays w) (log w) (reads w)).

(** One call of a logger method. *)
Definition logMsg (l : Logger) (lvl : Level) (msg : string) : M unit :=
  λ w, Some (tt, mkWorld (containers w) (arrays w) (log w ++ [mkLog l lvl msg]) (reads w)).

(** Note a [ReadFile] call on the embedded reader. *)
Definition noteRead (name : string) : M unit :=
  λ w, Some (tt, mkWorld (containers w) (arrays w) (log w) (reads w ++ [name])).

(** The elements a slice shows: the first [len] cells of its array. *)
Definition slice_elems (w : World) (s : slice) : list Observable :=
  take (s_len s) (default [] (arrays w !! s_arr s)).

(** [make([]Observable, 0)] *)
Definition make0 : M slice :=
  λ w, Some (Slice (length (arrays w)) 0 0,
             mkWorld (containers w) (arrays w ++ [[]]) (log w) (reads w)).

Section heap.
Context (Π : Platform).

(** [append(s, o)]: with spare capacity the next cell of the backing array
    is written in place; otherwise the elements move to a new, larger
    array. *)
Definition append (s : slice) (o : Observable) : M slice :=
  λ w, if decide (s_len s < s_cap s) then
         match arrays w !! s_arr s with
         | Some a =>
             Some (Slice (s_arr s) (S (s_len s)) (s_cap s),
                   mkWorld (containers w)
                     (<[s_arr s := <[s_len s := o]> a]> (arrays w))
                     (log w) (reads w))
         | None => None
         end
       else
         let newcap := S (s_len s) `max` growcap Π (s_cap s) in
         let a' := slice_elems w s ++ o :: replicate (newcap - S (s_len s)) ONil in
         Some (Slice (length (arrays w)) (S (s_len s)) newcap,
               mkWorld (containers w) (arrays w ++ [a']) (log w) (reads w)).

End heap.

(** The world after [*c = x]. *)
Definition setContainer (c : ptr) (x : Container) (w : World) : World :=
  mkWorld (<[c := x]> (containers w)) (arrays w) (log w) (reads w).

(** A world whose most recently allocated container is [x]: the shape of the
    world while a constructor works on the container it has just made. *)
Definition building (cs : list Container) (x : Container) (arrs : list (list Observable))
    (lg : list LogRecord) (rd : list string) : World :=
  mkWorld (cs ++ [x]) arrs lg rd.

(** What a container's observer list reads as. *)
Definition observers_of (w : World) (c : ptr) : option (list Observable) :=
  x ← containers w !! c; Some (slice_elems w (observers x)).

End Heap.
Export Heap.

(** ** The package *)

Module Config.
Section config.
Context (Π : Platform).

(** [c.viper.method(...)] for a method that updates the store and returns
    [A]; calling through a [nil] store pointer panics. *)
Definition callViper {A} (c : ptr) (method : Viper → Viper * A) : M A :=
  x ← load c;
  match viper x with
  | None => panic
  | Some v =>
      let '(v', a) := method v in
      store c (mkContainer (ID x) (Some v') (logger x) (observers x));;
      mret a
  end.

(** The same for a method without result. *)
Definition updViper (c : ptr) (method : Viper → Viper) : M unit :=
  callViper c (λ v, (method v, tt)).

(** [c.ID = id] *)
Definition setID (c : ptr) (id : string) : M unit :=
  x ← load c;
  store c (mkContainer id (viper x) (logger x) (observers x)).

(** [embedded.ReadFile(name)] through the interface [EmbeddedFileReader]. *)
Definition EmbeddedFileReader := string → Result string.

Definition embedReadFile (fs : EmbeddedFileReader) (name : string) : M (Result string) :=
  noteRead name;; mret (fs name).

(** [func initContainer(l, fs) *Container] *)
Definition initContainer (l : Logger) (fs : Fs) : M ptr :=
  obs ← make0;
  c ← new (mkContainer "" (Some (viper_New Π)) l obs);
  updViper c (SetFs fs);;
  updViper c AutomaticEnv;;
  updViper c (SetEnvKeyReplacer "." "_");;
  updViper c (SetTypeByDefaultValue true);;
  mret c.

(** [func (c *Container) handleReadFileError(err error)] *)
Definition handleReadFileError (c : ptr) (err : option error) : M unit :=
  match err with
  | Some e =>
      x ← load c;
      if errors_As_PathError e then
        logMsg (logger x) Warn "could not load config file. Using default values"
      else
        logMsg (logger x) Warn ("Could not read the config file (" +:+ error_string e +:+ ")")
  | None => mret tt
  end.

(** [func (c *Container) watchConfig()]: registers the notification closure
    (the round itself is [Round] below) and starts the store's watch. *)
Definition watchConfig (c : ptr) : M unit :=
  updViper c (OnConfigChange (NotifyObservers c));;
  updViper c WatchConfig.

(** [func NewFilesContainer(l, fs, configFiles ...string) *Container] *)
Definition NewFilesContainer (l : Logger) (fs : Fs) (configFiles : list string) : M ptr :=
  c ← initContainer l fs;
  match configFiles with
  | f0 :: _ =>
      setID c f0;;
      updViper c (SetConfigFile f0);;
      err ← callViper c (ReadInConfig Π);
      handleReadFileError c err
  | [] => mret tt
  end;;
  (if decide (1 < length configFiles) then
     forM_ (drop 1 configFiles) (λ f,
       x ← load c;
       setID c (ID x +:+ ";" +:+ f);;
       updViper c (SetConfigFile f);;
       err ← callViper c (MergeInConfig Π);
       handleReadFileError c err);;
     x ← load c;
     logMsg (logger x) Info "Loaded Config";;
     watchConfig c
   else mret tt);;
  mret c.

(** [func NewReaderContainer(l, format, configReaders ...io.Reader) *Container];
    a reader is given by its content. *)
Definition NewReaderContainer (l : Logger) (format : string)
    (configReaders : list string) : M ptr :=
  c ← initContainer l (osFs Π);
  updViper c (SetConfigType format);;
  match configReaders with
  | r0 :: _ =>
      setID c "0";;
      err ← callViper c (ReadConfig Π r0);
      handleReadFileError c err
  | [] => mret tt
  end;;
  (if decide (1 < length configReaders) then
     forMi_ 0 (drop 1 configReaders) (λ i f,
       x ← load c;
       setID c (ID x +:+ ";" +:+ pretty (i + 1));;
       err ← callViper c (MergeConfig Π f);
       handleReadFileError c err);;
     x ← load c;
     logMsg (logger x) Info "Loaded Config"
   else mret tt);;
  mret c.

(** The existence filter of [Load]: the paths whose [Stat] reports no
    error, in order. *)
Definition loadable (fs : Fs) (paths : list string) : list string :=
  filter (λ path, Stat fs path = None) paths.

(** [func Load(paths, fs, logger, allowEmptyConfig) (Containable, error)] *)
Definition Load (paths : list string) (fs : Fs) (l : Logger) (allowEmptyConfig : bool)
    : M (option ptr * option error) :=
  logMsg l Debug "Loading configuration";;
  let loadable := loadable fs paths in
  if negb allowEmptyConfig && bool_decide (length loadable = 0) then
    mret (None, Some (EWrap None ErrNoFilesFound))
  else
    c ← NewFilesContainer l fs loadable;
    mret (Some c, None).

(** The loop of [LoadEmbed]: read each source, stop at the first failure. *)
Fixpoint readEmbedded (fs : EmbeddedFileReader) (paths : list string) (configs : list string)
    : M (Result (list string)) :=
  match paths with
  | [] => mret (Ok configs)
  | path :: rest =>
      r ← embedReadFile fs path;
      match r with
      | Err err =>
          mret (Err (EWrap (Some ("failed to read embedded config file " +:+ path)) err))
      | Ok config => readEmbedded fs rest (configs ++ [config])
      end
  end.

(** [func LoadEmbed(paths, fs, logger) (Containable, error)] *)
Definition LoadEmbed (paths : list string) (fs : EmbeddedFileReader) (l : Logger)
    : M (option ptr * option error) :=
  logMsg l Debug "Loading embedded configuration";;
  r ← readEmbedded fs paths [];
  match r with
  | Err e => mret (None, Some e)
  | Ok configs =>
      c ← NewReaderContainer l "yaml" configs;
      mret (Some c, None)
  end.

(** [func (c *Container) Get(key string) interface{}] *)
Definition Get (c : ptr) (key : string) : M (option Value) :=
  callViper c (λ v, (v, Store.Get key v)).

(** [func (c *Container) Has(key string) bool] *)
Definition Has (c : ptr) (key : string) : M bool :=
  callViper c (λ v, (v, InConfig key v)).

(** [func (c *Container) Sub(key string) Containable] *)
Definition Sub (c : ptr) (key : string) : M ptr :=
  x ← load c;
  sub ← callViper c (λ v, (v, Store.Sub Π key v));
  obs ← make0;
  new (mkContainer (ID x +:+ "#" +:+ key) sub (logger x) obs).

(** [func (c *Container) AddObserver(o Observable)] *)
Definition AddObserver (c : ptr) (o : Observable) : M unit :=
  x ← load c;
  s ← append Π (observers x) o;
  x ← load c;
  store c (mkContainer (ID x) (viper x) (logger x) s).

(** [func (c *Container) AddObserverFunc(f func(Containable, chan error))] *)
Definition AddObserverFunc (c : ptr) (f : Handler) : M unit :=
  AddObserver c (Observer f).

(** [func (c *Container) GetObservers() []Observable] *)
Definition GetObservers (c : ptr) : M slice :=
  x ← load c; mret (observers x).

(** [func (c *Container) ToJSON() string] *)
Definition ToJSON (c : ptr) : M string :=
  s ← callViper c (λ v, (v, allSettings Π v));
  match json_Marshal Π s with
  | Err _ =>
      x ← load c;
      logMsg (logger x) Error "unable to marshal config to YAML";;
      mret ""
  | Ok bs => mret bs
  end.

End config.
End Config.

(** ** One change event: the notification round

    The closure that [watchConfig] registers, run by the store's watcher when
    the file changes:
<<
    errs := make(chan error)
    wg := &sync.WaitGroup{}
    for _, o := range c.observers {
        wg.Add(1)
        go func(o Observable, wg *sync.WaitGroup, errs chan error) {
            o.Run(c, errs)
            wg.Done()
        }(o, wg, errs)
    }
    wg.Wait()
>>
    Goroutines interleave freely, so the round is a step relation: the
    handler's own steps, the steps of each goroutine it started, and
    registrations that other goroutines make meanwhile. *)

Module Round.

(** [chan error] values, told apart by identity. *)
Definition chan := nat.

(** Where a started goroutine is: not yet scheduled, inside [o.Run], back
    from [o.Run], past [wg.Done()]. *)
Inductive TaskState := Spawned | Running | Returned | Done.

Global Instance TaskState_eq_dec : EqDecision TaskState.
Proof. solve_decision. Defined.

Record Task := mkTask { t_obs : Observable; t_state : TaskState }.

(** Where the handler is: in the loop with the rest of the ranged slice
    ahead, blocked in [wg.Wait()], returned. *)
Inductive MainPC :=
| Ranging (rest : list Observable)
| Waiting
| Exited.

Record State := mkState {
  pc : MainPC;
  (** what [c.observers] reads as right now *)
  registry : list Observable;
  (** the slice value the [range] clause evaluated, once *)
  snapshot : list Observable;
  (** the [WaitGroup] counter *)
  wg : Z;
  (** the goroutines this call has started *)
  tasks : list Task;
  (** the calls [o.Run(c, errs)] made so far, with their arguments *)
  calls : list (Observable * ptr * chan);
  (** a goroutine panicked: the process is gone *)
  crashed : bool
}.

(** The handler has logged the event, made the channel and the
    [WaitGroup], and evaluated [range c.observers], which read as [obs]. *)
Definition init (obs : list Observable) : State :=
  mkState (Ranging obs) obs obs 0 [] [] false.

(** Goroutines still ahead of their [wg.Done()]. *)
Definition pending (ts : list Task) : list Task :=
  filter (λ t, t_state t ≠ Done) ts.

(** Goroutines that have entered [o.Run]. *)
Definition started (ts : list Task) : list Task :=
  filter (λ t, t_state t ≠ Spawned) ts.

Section round.
(** The container the closure captured and the channel it made. *)
Context (c : ptr) (errs : chan).

Inductive step : State → State → Prop :=
(** [wg.Add(1); go func(...){...}(o, wg, errs)] *)
| step_spawn s o rest :
    crashed s = false → pc s = Ranging (o :: rest) →
    step s (mkState (Ranging rest) (registry s) (snapshot s) (wg s + 1)
              (tasks s ++ [mkTask o Spawned]) (calls s) false)
(** the loop ends *)
| step_range_end s :
    crashed s = false → pc s = Ranging [] →
    step s (mkState Waiting (registry s) (snapshot s) (wg s) (tasks s) (calls s) false)
(** [wg.Wait()] returns, which it does only at counter zero *)
| step_wait s :
    crashed s = false → pc s = Waiting → wg s = 0%Z →
    step s (mkState Exited (registry s) (snapshot s) (wg s) (tasks s) (calls s) false)
(** goroutine [i] calls [o.Run(c, errs)] *)
| step_run s i o :
    crashed s = false → tasks s !! i = Some (mkTask o Spawned) → o ≠ ONil →
    step s (mkState (pc s) (registry s) (snapshot s) (wg s)
              (<[i := mkTask o Running]> (tasks s)) (calls s ++ [(o, c, errs)]) false)
(** goroutine [i] calls [Run] on a nil interface value, or its observer
    panics inside [Run] *)
| step_panic s i o st :
    crashed s = false → tasks s !! i = Some (mkTask o st) →
    (st = Spawned ∧ o = ONil) ∨ st = Running →
    step s (mkState (pc s) (registry s) (snapshot s) (wg s) (tasks s) (calls s) true)
(** [o.Run] returns in goroutine [i] *)
| step_return s i o :
    crashed s = false → tasks s !! i = Some (mkTask o Running) →
    step s (mkState (pc s) (registry s) (snapshot s) (wg s)
              (<[i := mkTask o Returned]> (tasks s)) (calls s) false)
(** [wg.Done()] in goroutine [i] *)
| step_done s i o :
    crashed s = false → tasks s !! i = Some (mkTask o Returned) →
    step s (mkState (pc s) (registry s) (snapshot s) (wg s - 1)
              (<[i := mkTask o Done]> (tasks s)) (calls s) false)
(** some other goroutine registers an observer meanwhile *)
| step_register s o :
    crashed s = false →
    step s (mkState (pc s) (registry s ++ [o]) (snapshot s) (wg s) (tasks s) (calls s) false).

(** Executions: any number of steps. *)
Definition steps : State → State → Prop := rtc step.

(** The round that a change event starts for the container in world [w]:
    the handler ranges over what [c.observers] reads as at that moment. *)
Definition onChange (w : World) : option State := init <$> observers_of w c.

(** The call that the goroutine of a task makes. *)
Definition callOf (t : Task) : Observable * ptr * chan := (t_obs t, c, errs).

(** What holds of every state of a round over the snapshot [obs]: the
    counter counts the goroutines that have not reached [wg.Done()], the
    calls made are those of the goroutines that have entered [Run], and
    the goroutines started so far are those for the part of the snapshot
    the loop has gone through. *)
Definition inv (obs : list Observable) (s : State) : Prop :=
  snapshot s = obs ∧
  wg s = Z.of_nat (length (pending (tasks s))) ∧
  calls s ≡ₚ callOf <$> started (tasks s) ∧
  match pc s with
  | Ranging rest => (t_obs <$> tasks s) ++ rest = obs
  | Waiting => t_obs <$> tasks s = obs
  | Exited => t_obs <$> tasks s = obs ∧ wg s = 0%Z
  end.

(** The tasks of a round in which every goroutine has run to its end. *)
Definition all_done (obs : list Observable) : list Task :=
  (λ o, mkTask o Done) <$> obs.

(** The state a round over [obs] ends in when every observer returns. *)
Definition finished (obs later : list Observable) : State :=
  mkState Exited (obs ++ later) obs 0 (all_done obs) ((λ o, (o, c, errs)) <$> obs) false.

End round.
End Round.

(** ** What the constructors compute, as pure functions

    The constructors thread one container through a sequence of store calls.
    These functions say what store, identity and log come out; the
    verification proves that the monadic code computes them. *)

Module Summary.
Section summary.
Context (Π : Platform).

(** The store as [initContainer] leaves it. *)
Definition initViper (fs : Fs) : Viper :=
  SetTypeByDefaultValue true
    (SetEnvKeyReplacer "." "_" (AutomaticEnv (SetFs fs (viper_New Π)))).

(** The warning [handleReadFileError] writes for an error. *)
Definition warnRecord (l : Logger) (e : error) : LogRecord :=
  mkLog l Warn
    (if errors_As_PathError e then "could not load config file. Using default values"
     else "Could not read the config file (" +:+ error_string e +:+ ")").

(** What [handleReadFileError] logs for the outcome of one store call. *)
Definition warnOf (l : Logger) (err : option error) : list LogRecord :=
  match err with
  | Some e => [warnRecord l e]
  | None => []
  end.

(** One turn of the loop over [configFiles[1:]] on store, identity, log. *)
Definition mergeFileStep (l : Logger) (st : Viper * string * list LogRecord) (f : string)
    : Viper * string * list LogRecord :=
  let '(v, id, lg) := st in
  let r := MergeInConfig Π (SetConfigFile f v) in
  (r.1, id +:+ ";" +:+ f, lg ++ warnOf l r.2).

(** The first file, which seeds the store. *)
Definition firstFile (l : Logger) (st : Viper * string * list LogRecord) (files : list string)
    : Viper * string * list LogRecord :=
  match files with
  | f0 :: _ =>
      let '(v, _, lg) := st in
      let r := ReadInConfig Π (SetConfigFile f0 v) in
      (r.1, f0, lg ++ warnOf l r.2)
  | [] => st
  end.

(** [NewFilesContainer] on store, identity and log; [c] is the container
    being built. *)
Definition filesSummary (l : Logger) (fs : Fs) (c : ptr) (files : list string)
    (lg : list LogRecord) : Viper * string * list LogRecord :=
  let st1 := firstFile l (initViper fs, "", lg) files in
  if decide (1 < length files) then
    let '(v, id, lg') := foldl (mergeFileStep l) st1 (drop 1 files) in
    (WatchConfig (OnConfigChange (NotifyObservers c) v), id,
     lg' ++ [mkLog l Info "Loaded Config"])
  else st1.

(** One turn of the loop over [configReaders[1:]]; the state also counts the
    turns. *)
Definition mergeReaderStep (l : Logger) (st : nat * Viper * string * list LogRecord)
    (content : string) : nat * Viper * string * list LogRecord :=
  let '(i, v, id, lg) := st in
  let r := MergeConfig Π content v in
  (S i, r.1, id +:+ ";" +:+ pretty (i + 1), lg ++ warnOf l r.2).

Definition firstReader (l : Logger) (st : Viper * string * list LogRecord)
    (readers : list string) : Viper * string * list LogRecord :=
  match readers with
  | r0 :: _ =>
      let '(v, _, lg) := st in
      let r := ReadConfig Π r0 v in
      (r.1, "0", lg ++ warnOf l r.2)
  | [] => st
  end.

(** [NewReaderContainer] on store, identity and log. *)
Definition readersSummary (l : Logger) (format : string) (readers : list string)
    (lg : list LogRecord) : Viper * string * list LogRecord :=
  let st1 := firstReader l (SetConfigType format (initViper (osFs Π)), "", lg) readers in
  if decide (1 < length readers) then
    let '(_, v, id, lg') :=
      foldl (mergeReaderStep l) (0, st1.1.1, st1.1.2, st1.2) (drop 1 readers) in
    (v, id, lg' ++ [mkLog l Info "Loaded Config"])
  else st1.

(** Two stores that differ at most in the current file and the settings. *)
Definition sameSetup (v v' : Viper) : Prop :=
  v_fs v' = v_fs v ∧ v_automaticEnv v' = v_automaticEnv v ∧
  v_envKeyReplacer v' = v_envKeyReplacer v ∧
  v_typeByDefValue v' = v_typeByDefValue v ∧
  v_configType v' = v_configType v ∧ v_parents v' = v_parents v ∧
  v_onConfigChange v' = v_onConfigChange v ∧ v_watching v' = v_watching v.

(** What a file source contributes once the store has been pointed at it:
    its decoded settings, or the error of resolving, reading or decoding
    it. The config type is unset on the file path, so the decoder goes by
    the file name. *)
Definition source (fs : Fs) (name : string) : Result Settings :=
  if decide (name = "") then Err ConfigFileNotFoundError
  else match ReadFile fs name with
       | Err e => Err e
       | Ok content => decode Π "" name content
       end.

(** The file the store is pointed at after each [SetConfigFile]: an empty
    name leaves it where it was. *)
Fixpoint resolved (cur : string) (files : list string) : list string :=
  match files with
  | [] => []
  | f :: rest =>
      let cur' := if decide (f = "") then cur else f in
      cur' :: resolved cur' rest
  end.

(** The settings of the outcomes that succeeded, in order. *)
Definition decoded (rs : list (Result Settings)) : list Settings :=
  omap (λ r, match r with Ok t => Some t | Err _ => None end) rs.

(** The errors of the outcomes that failed, in order. *)
Definition failures (rs : list (Result Settings)) : list error :=
  omap (λ r, match r with Ok _ => None | Err e => Some e end) rs.

(** The file the store ends up pointed at: the last non-empty name. *)
Definition lastNonEmpty (files : list string) : option string :=
  last (filter (λ f, f ≠ "") files).

(** Each source as the store reads it, in order. *)
Definition outcomes (fs : Fs) (files : list string) : list (Result Settings) :=
  source fs <$> resolved "" files.

(** The identity string: the names joined by [";"]. *)
Fixpoint joinID (id : string) (names : list string) : string :=
  match names with
  | [] => id
  | f :: rest => joinID (id +:+ ";" +:+ f) rest
  end.

End summary.
End Summary.
Export Summary.

(** ** Vocabulary of the statements *)

Module Statements.
Section statements.
Context (Π : Platform).

(** A list of sources of either kind. *)
Inductive Sources :=
| FileSources (fs : Fs) (files : list string)
| ReaderSources (format : string) (readers : list string).

(** The constructor for the kind. *)
Definition construct (l : Logger) (srcs : Sources) : M ptr :=
  match srcs with
  | FileSources fs files => Config.NewFilesContainer Π l fs files
  | ReaderSources format readers => Config.NewReaderContainer Π l format readers
  end.

(** Every source is present and decodes; [trees] lists what they decode
    to, in order. *)
Definition decodeTo (srcs : Sources) (trees : list Settings) : Prop :=
  match srcs with
  | FileSources fs files => Forall2 (λ f t, source Π fs f = Ok t) files trees
  | ReaderSources format readers =>
      Forall2 (λ r t, decode Π format "" r = Ok t) readers trees
  end.

(** The store of the container at [c] holds exactly [cfg]. *)
Definition holds (w : World) (c : ptr) (cfg : Settings) : Prop :=
  ∃ x v, containers w !! c = Some x ∧ viper x = Some v ∧ v_config v = cfg.

(** "Any key defined by a later source takes that later source's value":
    a leaf of a source that no later source redefines is the merged
    value. *)
Definition laterWins (cfg : Settings) (trees : list Settings) : Prop :=
  ∀ pre t post p x,
    trees = pre ++ t :: post →
    searchMap t p = Some (Leaf x) →
    Forall (λ t', searchMap t' p = None) post →
    searchMap cfg p = Some (Leaf x).

(** The same, except where the earlier sources hold a nested map at the
    key. *)
Definition laterWinsUnlessMap (cfg : Settings) (trees : list Settings) : Prop :=
  ∀ pre t post p x,
    trees = pre ++ t :: post →
    searchMap t p = Some (Leaf x) →
    Forall (λ t', searchMap t' p = None) post →
    (∀ m, searchMap (layered pre) p ≠ Some (Map m)) →
    searchMap cfg p = Some (Leaf x).

(** "Every key not redefined by a later source keeps the value from the
    earlier source". *)
Definition earlierKept (cfg : Settings) (trees : list Settings) : Prop :=
  ∀ pre post p,
    trees = pre ++ post →
    Forall (λ t', searchMap t' p = None) post →
    searchMap cfg p = searchMap (layered pre) p.

(** The slice of a container sits on an array of its capacity. *)
Definition slice_ok (arrs : list (list Observable)) (s : slice) : Prop :=
  match arrs !! s_arr s with
  | Some a => length a = s_cap s ∧ s_len s ≤ s_cap s
  | None => False
  end.

Global Instance slice_ok_dec arrs s : Decision (slice_ok arrs s).
Proof. unfold slice_ok. destruct (arrs !! s_arr s); apply _. Defined.

(** The shape of every world the package's functions build: each
    container's observer slice is in bounds of its backing array, and no
    two containers sit on the same array. *)
Definition wf_world (w : World) : Prop :=
  Forall (λ x, slice_ok (arrays w) (observers x)) (containers w) ∧
  NoDup ((λ x, s_arr (observers x)) <$> containers w).

Global Instance wf_world_dec w : Decision (wf_world w).
Proof. unfold wf_world. apply _. Defined.

(** A run of registrations on a parent [c] and its subtree [s]: each entry
    says on which of the two ([true] for the subtree) and what. *)
Definition registerAll (c s : ptr) (regs : list (bool * Observable)) : M unit :=
  forM_ regs (λ r, Config.AddObserver Π (if r.1 then s else c) r.2).

(** The observers a run registers on one side. *)
Definition registeredOn (side : bool) (regs : list (bool * Observable)) : list Observable :=
  snd <$> filter (λ r, r.1 = side) regs.

End statements.
End Statements.
Export Statements.

(** ** Fixtures: a small platform and a few sources to run the code on *)

Module Fixtures.

Definition firstYaml : Settings :=
  {[ "yaml" := Map {[ "key" := Leaf (SStr "value"); "bool" := Leaf (SBool true) ]} ]}.

Definition secondYaml : Settings :=
  {[ "yaml" := Map {[ "key" := Leaf (SStr "value2");
                      "more" := Map {[ "key2" := Leaf (SStr "secondfile") ]} ]} ]}.

Definition nestedYaml : Settings := {[ "a" := Map {[ "b" := Leaf (SInt 1) ]} ]}.

Definition scalarYaml : Settings := {[ "a" := Leaf (SInt 5) ]}.

(** A decoder that knows four documents. *)
Definition toyDecode (ty name content : string) : Result Settings :=
  if decide (content = "first") then Ok firstYaml
  else if decide (content = "second") then Ok secondYaml
  else if decide (content = "nested") then Ok nestedYaml
  else if decide (content = "scalar") then Ok scalarYaml
  else Err (ConfigParseError "cannot unmarshal").

(** A file system with two good files and a file that does not decode. *)
Definition memFs : Fs :=
  mkFs
    (λ p, if decide (p ∈ ["first.yml"; "second.yml"; "broken.yml"]) then None
          else Some (PathError "stat" p))
    (λ p, if decide (p = "first.yml") then Ok "first"
          else if decide (p = "second.yml") then Ok "second"
          else if decide (p = "broken.yml") then Ok "{{"
          else Err (PathError "open" p)).

Definition noFs : Fs :=
  mkFs (λ p, Some (PathError "stat" p)) (λ p, Err (PathError "open" p)).

(** An encoder that refuses everything but the empty object. *)
Definition toyMarshal (s : Settings) : Result string :=
  if decide (s = ∅) then Ok "{}" else Err (OtherError "json: unsupported value").

Definition toy : Platform :=
  mkPlatform noFs toyDecode (λ cap, 2 * cap) v_config toyMarshal.

(** An embedded reader with one asset. *)
Definition oneAsset : Config.EmbeddedFileReader :=
  λ name, if decide (name = "logging.yaml") then Ok "first"
          else Err (PathError "open" name).

(** A world with one container over [firstYaml] and no observers. *)
Definition loadedWorld : World :=
  mkWorld
    [mkContainer "0" (Some (set_config firstYaml (viper_New toy))) 0 (Slice 0 0 0)]
    [[]] [] [].

(** A world with one container that has two observers registered. *)
Definition observedWorld : World :=
  mkWorld
    [mkContainer "0" (Some (set_config firstYaml (viper_New toy))) 0 (Slice 0 2 2)]
    [[Impl 1; Observer 2]] [] [].

End Fixtures.

(** ** Using the package: sequences of calls, and what an observer runs *)

Module Uses.
Section uses.
Context (Π : Platform).

(** [func (o Observer) Run(c Containable, errs chan error)]: the wrapped
    function is called with both arguments. For a call of [Run] on an
    [Observer], the call of its handler. *)
Definition Observer_Run (call : Observable * ptr * Round.chan)
    : option (Handler * ptr * Round.chan) :=
  match call.1.1 with
  | Observer handler => Some (handler, call.1.2, call.2)
  | _ => None
  end.

(** The handler calls among the calls of [Run] of a round. *)
Definition handlerCalls (calls : list (Observable * ptr * Round.chan))
    : list (Handler * ptr * Round.chan) :=
  omap Observer_Run calls.

(** [AddObserver] for each observer of a list, in order. *)
Definition registerEach (c : ptr) (os : list Observable) : M unit :=
  forM_ os (Config.AddObserver Π c).

(** One call of an exported function or method of the package. *)
Inductive Call :=
| CallLoad (paths : list string) (fs : Fs) (l : Logger) (allowEmptyConfig : bool)
| CallLoadEmbed (paths : list string) (fs : Config.EmbeddedFileReader) (l : Logger)
| CallNewFilesContainer (l : Logger) (fs : Fs) (configFiles : list string)
| CallNewReaderContainer (l : Logger) (format : string) (configReaders : list string)
| CallSub (c : ptr) (key : string)
| CallAddObserver (c : ptr) (o : Observable)
| CallAddObserverFunc (c : ptr) (f : Handler)
| CallGetObservers (c : ptr)
| CallGet (c : ptr) (key : string)
| CallHas (c : ptr) (key : string)
| CallToJSON (c : ptr).

(** Make the call and drop what it returns. *)
Definition runCall (k : Call) : M unit :=
  match k with
  | CallLoad paths fs l allow => Config.Load Π paths fs l allow;; mret tt
  | CallLoadEmbed paths fs l => Config.LoadEmbed Π paths fs l;; mret tt
  | CallNewFilesContainer l fs files => Config.NewFilesContainer Π l fs files;; mret tt
  | CallNewReaderContainer l format readers =>
      Config.NewReaderContainer Π l format readers;; mret tt
  | CallSub c key => Config.Sub Π c key;; mret tt
  | CallAddObserver c o => Config.AddObserver Π c o
  | CallAddObserverFunc c f => Config.AddObserverFunc Π c f
  | CallGetObservers c => Config.GetObservers c;; mret tt
  | CallGet c key => Config.Get c key;; mret tt
  | CallHas c key => Config.Has c key;; mret tt
  | CallToJSON c => Config.ToJSON Π c;; mret tt
  end.

(** A program: calls one after the other. *)
Definition runCalls (ks : list Call) : M unit := forM_ ks runCall.

(** The worlds that programs reach from the empty world without
    panicking. *)
Definition built (w : World) : Prop := ∃ ks, runCalls ks empty_world = Some (tt, w).


End uses.

(** Two more fixtures: an embedded reader with a good and an undecodable
    asset, and a world whose only container has a nil observer registered. *)
Definition twoAssets : Config.EmbeddedFileReader :=
  λ name, if decide (name = "logging.yaml") then Ok "first"
          else if decide (name = "invalid.yaml") then Ok "{{"
          else Err (PathError "open" name).


(** A short program: a container from a reader, a subtree of it, an
    observer on each. *)
Definition smallProgram : list Call :=
  [CallNewReaderContainer 0 "yaml" ["first"];
   CallSub 0 "yaml";
   CallAddObserver 0 (Impl 1);
   CallAddObserverFunc 1 2].

End Uses.
Export Uses.

(** * Verification *)

(** ** The store's merge, key by key *)

Section merge_facts.

Lemma mergeMaps_lookup (src tgt : Settings) (k : string) :
  mergeMaps src tgt !! k = mergedAt (src !! k) (tgt !! k).
Proof.
  unfold mergeMaps. cbn [mergeInto]. revert k.
  apply (map_fold_weak_ind
    (λ (r : Settings) (m : Settings), ∀ k, r !! k = mergedAt (m !! k) (tgt !! k))).
  - intros k. by rewrite lookup_empty.
  - intros i x m r Hi IH k.
    destruct (decide (k = i)) as [->|Hne].
    + rewrite lookup_insert_eq. specialize (IH i). rewrite Hi in IH. cbn in IH.
      rewrite IH. destruct (tgt !! i) as [[y|ttv]|] eqn:Ht; cbn.
      * by rewrite lookup_insert_eq.
      * destruct x as [y|tsv]; [by rewrite IH|]. by rewrite lookup_insert_eq.
      * by rewrite lookup_insert_eq.
    + rewrite (lookup_insert_ne m i k x) by done. rewrite <- (IH k).
      destruct (r !! i) as [[y|ttv]|]; [| destruct x |];
        by rewrite ?lookup_insert_ne by done.
Qed.

(** Merging into an empty map copies the source. *)
Lemma mergeMaps_empty (src : Settings) : mergeMaps src ∅ = src.
Proof.
  apply map_eq. intros k. rewrite mergeMaps_lookup, lookup_empty.
  by destruct (src !! k).
Qed.

(** A path the source does not define reads after the merge as before. *)
Lemma mergeMaps_inherit (p : list string) : ∀ src tgt : Settings,
  searchMap src p = None → searchMap (mergeMaps src tgt) p = searchMap tgt p.
Proof.
  induction p as [|k rest IH]; intros src tgt Hs; [done|].
  cbn in *. rewrite mergeMaps_lookup.
  destruct (src !! k) as [sv|] eqn:Hk; [|done].
  destruct rest as [|k' rest']; [done|].
  destruct sv as [y|tsv]; cbn.
  - destruct (tgt !! k) as [[z|ttv]|]; done.
  - destruct (tgt !! k) as [[z|ttv]|]; [done| |done].
    by apply IH.
Qed.

(** A leaf of the source is the merged value at its path, unless the target
    holds a nested map at that very path. *)
Lemma mergeMaps_override (p : list string) : ∀ (src tgt : Settings) (x : Scalar),
  searchMap src p = Some (Leaf x) →
  (∀ m, searchMap tgt p ≠ Some (Map m)) →
  searchMap (mergeMaps src tgt) p = Some (Leaf x).
Proof.
  induction p as [|k rest IH]; intros src tgt x Hs Ht; [done|].
  cbn in *. rewrite mergeMaps_lookup.
  destruct (src !! k) as [sv|] eqn:Hk; [|done].
  destruct rest as [|k' rest'].
  - simplify_eq. destruct (tgt !! k) as [[z|ttv]|]; cbn; [done| |done].
    by destruct (Ht ttv).
  - destruct sv as [y|tsv]; [done|].
    destruct (tgt !! k) as [[z|ttv]|]; cbn; [done| |done].
    + by apply IH.
Qed.

(** A map the target holds stays a map: no scalar of the source replaces
    it. *)
Lemma mergeMaps_keeps_map (src tgt : Settings) (k : string) (ttv : Settings) (y : Scalar) :
  tgt !! k = Some (Map ttv) → src !! k = Some (Leaf y) →
  mergeMaps src tgt !! k = Some (Map ttv).
Proof. intros Ht Hs. by rewrite mergeMaps_lookup, Hs, Ht. Qed.

Lemma layered_snoc (trees : list Settings) (t : Settings) :
  layered (trees ++ [t]) = mergeMaps t (layered trees).
Proof. unfold layered. by rewrite foldl_app. Qed.

Lemma foldl_merge_inherit (p : list string) (post : list Settings) : ∀ acc : Settings,
  Forall (λ t, searchMap t p = None) post →
  searchMap (foldl (λ acc t, mergeMaps t acc) acc post) p = searchMap acc p.
Proof.
  induction post as [|t post IH]; intros acc Hp; [done|].
  inversion_clear Hp. cbn. rewrite IH by done. by apply mergeMaps_inherit.
Qed.

Lemma layered_inherit (p : list string) (pre post : list Settings) :
  Forall (λ t, searchMap t p = None) post →
  searchMap (layered (pre ++ post)) p = searchMap (layered pre) p.
Proof.
  intros Hp. unfold layered. rewrite foldl_app. by apply foldl_merge_inherit.
Qed.

Lemma layered_last_wins (p : list string) (pre post : list Settings) (t : Settings) (x : Scalar) :
  searchMap t p = Some (Leaf x) →
  Forall (λ t', searchMap t' p = None) post →
  (∀ m, searchMap (layered pre) p ≠ Some (Map m)) →
  searchMap (layered (pre ++ t :: post)) p = Some (Leaf x).
Proof.
  intros Ht Hpost Hpre.
  replace (pre ++ t :: post) with ((pre ++ [t]) ++ post) by by rewrite <- app_assoc.
  rewrite layered_inherit by done. rewrite layered_snoc.
  by apply mergeMaps_override.
Qed.

End merge_facts.

(** ** Running the monadic code *)

Import Config.

Section run_facts.
Context (Π : Platform).

Lemma bind_run {A B} (m : M A) (k : A → M B) (w w' : World) (a : A) :
  m w = Some (a, w') → (m ≫= k) w = k a w'.
Proof. intros H. unfold mbind, M_bind. by rewrite H. Qed.

Lemma bind_panic {A B} (m : M A) (k : A → M B) (w : World) :
  m w = None → (m ≫= k) w = None.
Proof. intros H. unfold mbind, M_bind. by rewrite H. Qed.

Lemma bind_assoc_run {A B C} (m : M A) (k : A → M B) (k' : B → M C) (w : World) :
  ((m ≫= k) ≫= k') w = (m ≫= λ a, k a ≫= k') w.
Proof. unfold mbind, M_bind. by destruct (m w) as [[a w']|]. Qed.

(** *** Any valid pointer *)

Lemma load_run (c : ptr) (x : Container) (w : World) :
  containers w !! c = Some x → load c w = Some (x, w).
Proof. intros H. unfold load. by rewrite H. Qed.

Lemma store_run (c : ptr) (x y : Container) (w : World) :
  containers w !! c = Some x → store c y w = Some (tt, setContainer c y w).
Proof. intros H. unfold store. by rewrite H. Qed.

Lemma setContainer_lookup (c : ptr) (x y : Container) (w : World) :
  containers w !! c = Some x → containers (setContainer c y w) !! c = Some y.
Proof.
  intros H. cbn. apply list_lookup_insert_eq. by eapply lookup_lt_Some.
Qed.

Lemma setContainer_lookup_ne (c d : ptr) (y : Container) (w : World) :
  c ≠ d → containers (setContainer c y w) !! d = containers w !! d.
Proof. intros H. cbn. by apply list_lookup_insert_ne. Qed.

Lemma callViper_run {A} (c : ptr) (x : Container) (v : Viper)
    (method : Viper → Viper * A) (w : World) :
  containers w !! c = Some x → viper x = Some v →
  callViper c method w =
    Some ((method v).2,
          setContainer c (mkContainer (ID x) (Some (method v).1) (logger x) (observers x)) w).
Proof.
  intros Hc Hv. unfold callViper.
  rewrite (bind_run _ _ _ _ _ (load_run _ _ _ Hc)). rewrite Hv.
  destruct (method v) as [v' a]. cbn [fst snd].
  by rewrite (bind_run _ _ _ _ _ (store_run _ _ _ _ Hc)).
Qed.

Lemma callViper_nil {A} (c : ptr) (x : Container) (method : Viper → Viper * A) (w : World) :
  containers w !! c = Some x → viper x = None → callViper c method w = None.
Proof.
  intros Hc Hv. unfold callViper.
  rewrite (bind_run _ _ _ _ _ (load_run _ _ _ Hc)). by rewrite Hv.
Qed.

(** A read-only store call leaves the world as it was. *)
Lemma setContainer_same (c : ptr) (x : Container) (w : World) :
  containers w !! c = Some x → setContainer c x w = w.
Proof.
  intros H. destruct w as [cs arrs lg rd]. unfold setContainer. cbn in *.
  by rewrite list_insert_id.
Qed.

Lemma callViper_read {A} (c : ptr) (x : Container) (v : Viper) (f : Viper → A) (w : World) :
  containers w !! c = Some x → viper x = Some v →
  callViper c (λ v, (v, f v)) w = Some (f v, w).
Proof.
  intros Hc Hv. rewrite (callViper_run c x v) by done. cbn [fst snd].
  rewrite <- Hv. destruct x as [id vp lgr obs]. cbn. by rewrite setContainer_same.
Qed.

(** *** The container under construction: the last one allocated *)

Lemma building_lookup cs x arrs lg rd :
  containers (building cs x arrs lg rd) !! length cs = Some x.
Proof. cbn. by rewrite list_lookup_middle. Qed.

Lemma building_set cs x y arrs lg rd :
  setContainer (length cs) y (building cs x arrs lg rd) = building cs y arrs lg rd.
Proof.
  unfold setContainer, building. cbn. f_equal.
  rewrite insert_app_r_alt by lia. by rewrite Nat.sub_diag.
Qed.

Lemma load_building {B} cs x arrs lg rd (k : Container → M B) :
  (load (length cs) ≫= k) (building cs x arrs lg rd) = k x (building cs x arrs lg rd).
Proof. apply bind_run, load_run, building_lookup. Qed.

Lemma setID_building {B} cs x arrs lg rd (id : string) (k : unit → M B) :
  (setID (length cs) id ≫= k) (building cs x arrs lg rd) =
  k tt (building cs (mkContainer id (viper x) (logger x) (observers x)) arrs lg rd).
Proof.
  apply bind_run. unfold setID. rewrite load_building.
  rewrite (store_run _ x) by apply building_lookup. by rewrite building_set.
Qed.

Lemma callViper_building {A B} cs id v l obs arrs lg rd
    (method : Viper → Viper * A) (k : A → M B) :
  (callViper (length cs) method ≫= k) (building cs (mkContainer id (Some v) l obs) arrs lg rd) =
  k (method v).2 (building cs (mkContainer id (Some (method v).1) l obs) arrs lg rd).
Proof.
  apply bind_run.
  rewrite (callViper_run _ (mkContainer id (Some v) l obs) v) by (apply building_lookup || done).
  by rewrite building_set.
Qed.

Lemma updViper_building {B} cs id v l obs arrs lg rd
    (method : Viper → Viper) (k : unit → M B) :
  (updViper (length cs) method ≫= k) (building cs (mkContainer id (Some v) l obs) arrs lg rd) =
  k tt (building cs (mkContainer id (Some (method v)) l obs) arrs lg rd).
Proof. unfold updViper. by rewrite callViper_building. Qed.

Lemma logMsg_building {B} cs x arrs lg rd l lvl msg (k : unit → M B) :
  (logMsg l lvl msg ≫= k) (building cs x arrs lg rd) =
  k tt (building cs x arrs (lg ++ [mkLog l lvl msg]) rd).
Proof. by apply bind_run. Qed.

Lemma handleReadFileError_building {B} cs id vp l obs arrs lg rd
    (err : option error) (k : unit → M B) :
  (handleReadFileError (length cs) err ≫= k)
    (building cs (mkContainer id vp l obs) arrs lg rd) =
  k tt (building cs (mkContainer id vp l obs) arrs (lg ++ warnOf l err) rd).
Proof.
  apply bind_run. unfold handleReadFileError, warnOf, warnRecord.
  destruct err as [e|]; [|by rewrite app_nil_r].
  rewrite load_building. cbn [logger]. by destruct (errors_As_PathError e).
Qed.

Lemma initContainer_run (l : Logger) (fs : Fs) (w : World) :
  initContainer Π l fs w =
  Some (length (containers w),
        building (containers w)
          (mkContainer "" (Some (initViper Π fs)) l (Slice (length (arrays w)) 0 0))
          (arrays w ++ [[]]) (log w) (reads w)).
Proof.
  unfold initContainer.
  rewrite (bind_run make0 _ w
    (mkWorld (containers w) (arrays w ++ [[]]) (log w) (reads w))
    (Slice (length (arrays w)) 0 0)) by done.
  erewrite (bind_run (new _)) by reflexivity.
  change (mkWorld (containers ?w0 ++ [?x]) ?a ?b ?c) with (building (containers w0) x a b c).
  cbn [containers arrays log reads].
  by rewrite !updViper_building.
Qed.

End run_facts.

(** ** The constructors in closed form *)

Section constructor_facts.
Context (Π : Platform).

Lemma mergeFiles_loop (l : Logger) (files : list string) :
  ∀ cs id v obs arrs lg rd,
  forM_ files (λ f,
      x ← load (length cs);
      setID (length cs) (ID x +:+ ";" +:+ f);;
      updViper (length cs) (SetConfigFile f);;
      err ← callViper (length cs) (MergeInConfig Π);
      handleReadFileError (length cs) err)
    (building cs (mkContainer id (Some v) l obs) arrs lg rd) =
  let st := foldl (mergeFileStep Π l) (v, id, lg) files in
  Some (tt, building cs (mkContainer st.1.2 (Some st.1.1) l obs) arrs st.2 rd).
Proof.
  induction files as [|f rest IH]; intros cs id v obs arrs lg rd; [done|].
  cbn [forM_ foldl].
  rewrite bind_assoc_run, load_building. cbn [ID viper logger observers].
  rewrite bind_assoc_run, setID_building. cbn [ID viper logger observers].
  rewrite bind_assoc_run, updViper_building.
  rewrite bind_assoc_run, callViper_building.
  rewrite handleReadFileError_building.
  by rewrite IH.
Qed.

Lemma NewFilesContainer_run (l : Logger) (fs : Fs) (files : list string) (w : World) :
  NewFilesContainer Π l fs files w =
  let st := filesSummary Π l fs (length (containers w)) files (log w) in
  Some (length (containers w),
        building (containers w)
          (mkContainer st.1.2 (Some st.1.1) l (Slice (length (arrays w)) 0 0))
          (arrays w ++ [[]]) st.2 (reads w)).
Proof.
  unfold NewFilesContainer, filesSummary.
  rewrite (bind_run _ _ _ _ _ (initContainer_run Π l fs w)).
  set (cs := containers w).
  assert (∀ B (k : unit → M B),
    (match files with
     | f0 :: _ =>
         setID (length cs) f0;;
         updViper (length cs) (SetConfigFile f0);;
         err ← callViper (length cs) (ReadInConfig Π);
         handleReadFileError (length cs) err
     | [] => mret tt
     end ≫= k)
      (building cs (mkContainer "" (Some (initViper Π fs)) l (Slice (length (arrays w)) 0 0))
         (arrays w ++ [[]]) (log w) (reads w)) =
    let st := firstFile Π l (initViper Π fs, "", log w) files in
    k tt (building cs (mkContainer st.1.2 (Some st.1.1) l (Slice (length (arrays w)) 0 0))
            (arrays w ++ [[]]) st.2 (reads w))) as Hfirst.
  { intros B k. destruct files as [|f0 rest]; [done|]. cbn [firstFile].
    rewrite bind_assoc_run, setID_building. cbn [ID viper logger observers].
    rewrite bind_assoc_run, updViper_building.
    rewrite bind_assoc_run, callViper_building.
    by rewrite handleReadFileError_building. }
  rewrite Hfirst. clear Hfirst. cbn zeta.
  destruct (firstFile Π l (initViper Π fs, "", log w) files) as [[v1 id1] lg1].
  cbn [fst snd].
  destruct (decide (1 < length files)) as [Hlen|Hlen]; [|done].
  rewrite bind_assoc_run.
  rewrite (bind_run _ _ _ _ _ (mergeFiles_loop l (drop 1 files) cs id1 v1 _ _ lg1 _)).
  destruct (foldl (mergeFileStep Π l) (v1, id1, lg1) (drop 1 files)) as [[v2 id2] lg2].
  cbn [fst snd].
  rewrite bind_assoc_run, load_building. cbn [logger].
  rewrite bind_assoc_run, logMsg_building.
  unfold watchConfig.
  rewrite bind_assoc_run, updViper_building.
  by rewrite updViper_building.
Qed.

Lemma mergeReaders_loop (l : Logger) (readers : list string) :
  ∀ i cs id v obs arrs lg rd,
  forMi_ i readers (λ i f,
      x ← load (length cs);
      setID (length cs) (ID x +:+ ";" +:+ pretty (i + 1));;
      err ← callViper (length cs) (MergeConfig Π f);
      handleReadFileError (length cs) err)
    (building cs (mkContainer id (Some v) l obs) arrs lg rd) =
  let st := foldl (mergeReaderStep Π l) (i, v, id, lg) readers in
  Some (tt, building cs (mkContainer st.1.2 (Some st.1.1.2) l obs) arrs st.2 rd).
Proof.
  induction readers as [|f rest IH]; intros i cs id v obs arrs lg rd; [done|].
  cbn [forMi_ foldl].
  rewrite bind_assoc_run, load_building. cbn [ID viper logger observers].
  rewrite bind_assoc_run, setID_building. cbn [ID viper logger observers].
  rewrite bind_assoc_run, callViper_building.
  rewrite handleReadFileError_building.
  by rewrite IH.
Qed.

Lemma NewReaderContainer_run (l : Logger) (format : string) (readers : list string) (w : World) :
  NewReaderContainer Π l format readers w =
  let st := readersSummary Π l format readers (log w) in
  Some (length (containers w),
        building (containers w)
          (mkContainer st.1.2 (Some st.1.1) l (Slice (length (arrays w)) 0 0))
          (arrays w ++ [[]]) st.2 (reads w)).
Proof.
  unfold NewReaderContainer, readersSummary.
  rewrite (bind_run _ _ _ _ _ (initContainer_run Π l (osFs Π) w)).
  set (cs := containers w).
  rewrite updViper_building.
  set (v0 := SetConfigType format (initViper Π (osFs Π))).
  assert (∀ B (k : unit → M B),
    (match readers with
     | r0 :: _ =>
         setID (length cs) "0";;
         err ← callViper (length cs) (ReadConfig Π r0);
         handleReadFileError (length cs) err
     | [] => mret tt
     end ≫= k)
      (building cs (mkContainer "" (Some v0) l (Slice (length (arrays w)) 0 0))
         (arrays w ++ [[]]) (log w) (reads w)) =
    let st := firstReader Π l (v0, "", log w) readers in
    k tt (building cs (mkContainer st.1.2 (Some st.1.1) l (Slice (length (arrays w)) 0 0))
            (arrays w ++ [[]]) st.2 (reads w))) as Hfirst.
  { intros B k. destruct readers as [|r0 rest]; [done|]. cbn [firstReader].
    rewrite bind_assoc_run, setID_building. cbn [ID viper logger observers].
    rewrite bind_assoc_run, callViper_building.
    by rewrite handleReadFileError_building. }
  rewrite Hfirst. clear Hfirst. cbn zeta.
  destruct (firstReader Π l (v0, "", log w) readers) as [[v1 id1] lg1].
  cbn [fst snd].
  destruct (decide (1 < length readers)) as [Hlen|Hlen]; [|done].
  rewrite bind_assoc_run.
  rewrite (bind_run _ _ _ _ _ (mergeReaders_loop l (drop 1 readers) 0 cs id1 v1 _ _ lg1 _)).
  destruct (foldl (mergeReaderStep Π l) (0, v1, id1, lg1) (drop 1 readers))
    as [[[i2 v2] id2] lg2].
  cbn [fst snd].
  rewrite bind_assoc_run, load_building. cbn [logger].
  by rewrite logMsg_building.
Qed.

End constructor_facts.

(** ** The file loop, source by source *)

Section file_loop_facts.
Context (Π : Platform).

Lemma sameSetup_refl v : sameSetup v v.
Proof. by repeat split. Qed.

Lemma sameSetup_trans v1 v2 v3 : sameSetup v1 v2 → sameSetup v2 v3 → sameSetup v1 v3.
Proof. unfold sameSetup. intros ? ?. destruct_and!. repeat split; congruence. Qed.

Lemma SetConfigFile_spec (f : string) (v : Viper) :
  sameSetup v (SetConfigFile f v) ∧
  v_config (SetConfigFile f v) = v_config v ∧
  v_configFile (SetConfigFile f v) = (if decide (f = "") then v_configFile v else f).
Proof. unfold SetConfigFile. destruct (decide (f = "")); by repeat split. Qed.

Lemma readConfigFile_source (fs : Fs) (v : Viper) :
  v_fs v = fs → v_configType v = "" →
  readConfigFile Π v = source Π fs (v_configFile v).
Proof.
  intros <- Hty. unfold readConfigFile, getConfigFile, source.
  destruct (decide (v_configFile v = "")); [done|]. by rewrite Hty.
Qed.

Lemma MergeInConfig_spec (v : Viper) :
  let r := MergeInConfig Π v in
  sameSetup v r.1 ∧ v_configFile r.1 = v_configFile v ∧
  match readConfigFile Π v with
  | Ok t => v_config r.1 = mergeMaps t (v_config v) ∧ r.2 = None
  | Err e => v_config r.1 = v_config v ∧ r.2 = Some e
  end.
Proof.
  unfold MergeInConfig. destruct (readConfigFile Π v); cbn; by repeat split.
Qed.

Lemma ReadInConfig_spec (v : Viper) :
  let r := ReadInConfig Π v in
  sameSetup v r.1 ∧ v_configFile r.1 = v_configFile v ∧
  match readConfigFile Π v with
  | Ok t => v_config r.1 = t ∧ r.2 = None
  | Err e => v_config r.1 = v_config v ∧ r.2 = Some e
  end.
Proof.
  unfold ReadInConfig. destruct (readConfigFile Π v); cbn; by repeat split.
Qed.

(** The loop over the later files: what it does to settings, log,
    identity and current file. *)
Lemma mergeFiles_spec (l : Logger) (fs : Fs) (files : list string) :
  ∀ v id lg,
  v_fs v = fs → v_configType v = "" →
  let st := foldl (mergeFileStep Π l) (v, id, lg) files in
  let rs := source Π fs <$> resolved (v_configFile v) files in
  sameSetup v st.1.1 ∧
  v_config st.1.1 = foldl (λ acc t, mergeMaps t acc) (v_config v) (decoded rs) ∧
  st.2 = lg ++ (warnRecord l <$> failures rs) ∧
  st.1.2 = joinID id files ∧
  v_configFile st.1.1 = default (v_configFile v) (last (resolved (v_configFile v) files)).
Proof.
  induction files as [|f rest IH]; intros v id lg Hfs Hty.
  { cbn. rewrite app_nil_r. split; [apply sameSetup_refl|done]. }
  cbn [foldl mergeFileStep resolved fmap list_fmap].
  destruct (SetConfigFile_spec f v) as (Hs1 & Hc1 & Hf1).
  set (v1 := SetConfigFile f v) in *.
  destruct (MergeInConfig_spec v1) as (Hs2 & Hf2 & Hr). cbn zeta in Hs2, Hf2, Hr.
  set (r := MergeInConfig Π v1) in *.
  assert (Hfs1 : v_fs v1 = fs) by (destruct Hs1 as (-> & _); done).
  assert (Hty1 : v_configType v1 = "") by (destruct Hs1 as (_&_&_&_& -> & _); done).
  assert (Hfs2 : v_fs r.1 = fs) by (destruct Hs2 as (-> & _); done).
  assert (Hty2 : v_configType r.1 = "") by (destruct Hs2 as (_&_&_&_& -> & _); done).
  specialize (IH r.1 (id +:+ ";" +:+ f) (lg ++ warnOf l r.2) Hfs2 Hty2).
  cbn zeta in IH. destruct IH as (Hs & Hc & Hl & Hi & Hf).
  rewrite Hf2, Hf1 in Hc, Hl, Hf.
  set (cur' := if decide (f = "") then v_configFile v else f) in *.
  rewrite (readConfigFile_source fs v1 Hfs1 Hty1), Hf1 in Hr. fold cur' in Hr.
  split; [eauto using sameSetup_trans|].
  split; [|split; [|split]].
  - rewrite Hc. unfold decoded. cbn [omap list_omap].
    fold (decoded (source Π fs <$> resolved cur' rest)).
    destruct (source Π fs cur') as [t|e]; cbn [foldl].
    + destruct Hr as [-> _]. by rewrite Hc1.
    + destruct Hr as [-> _]. by rewrite Hc1.
  - rewrite Hl. unfold failures. cbn [omap list_omap].
    fold (failures (source Π fs <$> resolved cur' rest)).
    destruct (source Π fs cur') as [t|e]; destruct Hr as [_ ->]; cbn.
    + by rewrite app_nil_r.
    + by rewrite <- app_assoc.
  - done.
  - rewrite Hf, last_cons. by destruct (last (resolved cur' rest)).
Qed.

End file_loop_facts.

Section files_summary_facts.
Context (Π : Platform).

Lemma last_resolved (files : list string) : ∀ cur,
  default cur (last (resolved cur files)) = default cur (lastNonEmpty files).
Proof.
  unfold lastNonEmpty.
  induction files as [|f rest IH]; intros cur; [done|].
  cbn [resolved]. rewrite last_cons.
  destruct (decide (f = "")) as [->|Hne].
  - rewrite filter_cons_False by (intros H; by apply H).
    rewrite <- IH. by destruct (last (resolved cur rest)).
  - rewrite filter_cons_True by done. rewrite last_cons.
    specialize (IH f).
    destruct (last (resolved f rest)), (last (filter (λ f0, f0 ≠ "") rest)); cbn in *; done.
Qed.

Lemma lastNonEmpty_nonempty (files : list string) (n : string) :
  lastNonEmpty files = Some n → n ≠ "".
Proof.
  unfold lastNonEmpty. intros H%last_Some_elem_of.
  by apply list_elem_of_filter in H as [? _].
Qed.

(** The store's watch after the later files: on the last non-empty name. *)
Lemma watch_target (files : list string) (v : Viper) (cb : Callback) :
  v_watching v = None →
  v_configFile v = default "" (lastNonEmpty files) →
  v_watching (WatchConfig (OnConfigChange cb v)) = lastNonEmpty files.
Proof.
  intros Hw Hf. unfold WatchConfig, getConfigFile, OnConfigChange. cbn.
  destruct (lastNonEmpty files) as [n|] eqn:E; cbn in Hf.
  - apply lastNonEmpty_nonempty in E. rewrite Hf.
    by destruct (decide (n = "")).
  - rewrite Hf. by destruct (decide ("" = "")).
Qed.

Lemma watch_fields (v : Viper) (cb : Callback) :
  let v' := WatchConfig (OnConfigChange cb v) in
  v_fs v' = v_fs v ∧ v_config v' = v_config v ∧
  v_onConfigChange v' = Some cb ∧ v_configFile v' = v_configFile v.
Proof.
  unfold WatchConfig, getConfigFile, OnConfigChange. cbn.
  by destruct (decide (v_configFile v = "")).
Qed.

Lemma filesSummary_spec (l : Logger) (fs : Fs) (c : ptr) (files : list string)
    (lg : list LogRecord) :
  let st := filesSummary Π l fs c files lg in
  let rs := outcomes Π fs files in
  v_fs st.1.1 = fs ∧
  v_config st.1.1 = layered (decoded rs) ∧
  st.2 = lg ++ (warnRecord l <$> failures rs) ++
           (if decide (1 < length files) then [mkLog l Info "Loaded Config"] else []) ∧
  st.1.2 = match files with [] => "" | f0 :: rest => joinID f0 rest end ∧
  v_onConfigChange st.1.1 =
    (if decide (1 < length files) then Some (NotifyObservers c) else None) ∧
  v_watching st.1.1 = (if decide (1 < length files) then lastNonEmpty files else None).
Proof.
  unfold filesSummary, outcomes.
  destruct files as [|f0 rest].
  { cbn. rewrite app_nil_r. by repeat split. }
  cbn [firstFile resolved fmap list_fmap].
  set (v0 := initViper Π fs).
  destruct (SetConfigFile_spec f0 v0) as (Hs1 & Hc1 & Hf1).
  set (v1 := SetConfigFile f0 v0) in *.
  destruct (ReadInConfig_spec Π v1) as (Hs2 & Hf2 & Hr). cbn zeta in Hs2, Hf2, Hr.
  set (r := ReadInConfig Π v1) in *.
  change (v_configFile v0) with "" in Hf1.
  set (cur := if decide (f0 = "") then "" else f0) in *.
  assert (Hfs1 : v_fs v1 = fs) by (destruct Hs1 as (-> & _); done).
  assert (Hty1 : v_configType v1 = "") by (destruct Hs1 as (_&_&_&_& -> & _); done).
  assert (Hfs2 : v_fs r.1 = fs) by (destruct Hs2 as (-> & _); done).
  assert (Hty2 : v_configType r.1 = "") by (destruct Hs2 as (_&_&_&_& -> & _); done).
  assert (Hw2 : v_watching r.1 = None).
  { destruct Hs2 as (_&_&_&_&_&_&_& ->). by destruct Hs1 as (_&_&_&_&_&_&_& ->). }
  assert (Ho2 : v_onConfigChange r.1 = None).
  { destruct Hs2 as (_&_&_&_&_&_& -> &_). by destruct Hs1 as (_&_&_&_&_&_& -> &_). }
  rewrite (readConfigFile_source Π fs v1 Hfs1 Hty1), Hf1 in Hr.
  assert (Hcfg : v_config r.1 = layered (decoded [source Π fs cur])).
  { unfold layered, decoded. cbn. destruct (source Π fs cur) as [t|e]; cbn.
    - destruct Hr as [-> _]. by rewrite mergeMaps_empty.
    - destruct Hr as [-> _]. by rewrite Hc1. }
  assert (Hlog : lg ++ warnOf l r.2 = lg ++ (warnRecord l <$> failures [source Π fs cur])).
  { unfold failures. cbn. by destruct (source Π fs cur); destruct Hr as [_ ->]. }
  destruct (decide (1 < length (f0 :: rest))) as [Hlen|Hlen].
  - change (drop 1 (f0 :: rest)) with rest.
    destruct (mergeFiles_spec Π l fs rest r.1 f0 (lg ++ warnOf l r.2) Hfs2 Hty2)
      as (Hs & Hc & Hl & Hi & Hf).
    cbn zeta in Hs, Hc, Hl, Hi, Hf. rewrite Hf2, Hf1 in Hc, Hl, Hf.
    destruct (foldl (mergeFileStep Π l) (r.1, f0, lg ++ warnOf l r.2) rest)
      as [[v2 id2] lg2]. cbn [fst snd] in *.
    destruct (watch_fields v2 (NotifyObservers c)) as (Hwf & Hwc & Hwo & _).
    cbn zeta in Hwf, Hwc, Hwo.
    split; [|split; [|split; [|split; [|split]]]].
    + destruct Hs as (Hx & _). congruence.
    + rewrite Hwc, Hc, Hcfg. unfold layered, decoded. cbn [omap list_omap].
      by destruct (source Π fs cur).
    + rewrite Hl, Hlog. unfold failures. cbn [omap list_omap].
      destruct (source Π fs cur); cbn; by rewrite <- ?app_assoc.
    + done.
    + done.
    + apply watch_target.
      * destruct Hs as (_&_&_&_&_&_&_& ->). done.
      * rewrite Hf. rewrite <- last_resolved. cbn [resolved]. fold cur.
        rewrite last_cons. by destruct (last (resolved cur rest)).
  - assert (rest = []) as -> by (destruct rest; [done|cbn in Hlen; lia]).
    cbn [fst snd resolved fmap list_fmap].
    split; [done|]. split; [done|]. split; [by rewrite Hlog, app_nil_r|].
    by repeat split.
Qed.

Lemma outcomes_length (fs : Fs) (files : list string) :
  length (outcomes Π fs files) = length files.
Proof.
  unfold outcomes. rewrite length_fmap.
  generalize "". induction files as [|f rest IH]; intros cur; [done|].
  cbn. by rewrite IH.
Qed.

(** With no empty name among them, the store reads the files as given. *)
Lemma resolved_nonempty (files : list string) : ∀ cur,
  Forall (λ f, f ≠ "") files → resolved cur files = files.
Proof.
  induction files as [|f rest IH]; intros cur Hne; [done|].
  inversion_clear Hne. cbn. destruct (decide (f = "")); [done|]. by rewrite IH.
Qed.

End files_summary_facts.

(** ** Load *)

Section load_facts.
Context (Π : Platform).

Lemma loadable_nil (fs : Fs) (paths : list string) :
  loadable fs paths = [] ↔ Forall (λ p, Stat fs p ≠ None) paths.
Proof.
  unfold loadable. induction paths as [|p rest IH]; [done|].
  destruct (decide (Stat fs p = None)) as [Hp|Hp].
  - rewrite filter_cons_True by done. split; [done|].
    intros H. by inversion_clear H.
  - rewrite filter_cons_False by done. rewrite IH. split.
    + by constructor.
    + intros H. by inversion_clear H.
Qed.

Lemma loadable_exists (fs : Fs) (paths : list string) :
  Forall (λ p, Stat fs p = None) (loadable fs paths).
Proof.
  unfold loadable. apply Forall_forall. intros p Hp.
  by apply list_elem_of_filter in Hp as [? _].
Qed.

(** [Load] when the guard lets it through: the container that
    [NewFilesContainer] builds from the paths that exist. *)
Lemma Load_run_container (paths : list string) (fs : Fs) (l : Logger) (allow : bool) (w : World) :
  ¬ (allow = false ∧ loadable fs paths = []) →
  let lg0 := log w ++ [mkLog l Debug "Loading configuration"] in
  let st := filesSummary Π l fs (length (containers w)) (loadable fs paths) lg0 in
  Load Π paths fs l allow w =
  Some ((Some (length (containers w)), None),
        building (containers w)
          (mkContainer st.1.2 (Some st.1.1) l (Slice (length (arrays w)) 0 0))
          (arrays w ++ [[]]) st.2 (reads w)).
Proof.
  intros Hgo. unfold Load.
  erewrite (bind_run (logMsg _ _ _)) by reflexivity.
  destruct (negb allow && bool_decide (length (loadable fs paths) = 0)) eqn:E.
  { exfalso. apply Hgo. apply andb_true_iff in E as [Ha Hn].
    apply bool_decide_eq_true in Hn. apply length_zero_iff_nil in Hn.
    by destruct allow. }
  erewrite bind_run; [reflexivity|].
  by rewrite NewFilesContainer_run.
Qed.

Lemma Load_run_error (paths : list string) (fs : Fs) (l : Logger) (w : World) :
  loadable fs paths = [] →
  Load Π paths fs l false w =
  Some ((None, Some (EWrap None ErrNoFilesFound)),
        mkWorld (containers w) (arrays w)
          (log w ++ [mkLog l Debug "Loading configuration"]) (reads w)).
Proof.
  intros Hnone. unfold Load.
  erewrite (bind_run (logMsg _ _ _)) by reflexivity.
  by rewrite Hnone.
Qed.

(** C1. [Load] always returns. It returns no container and an error that
    is [ErrNoFilesFound] exactly when [allowEmptyConfig] is false and no
    path passes the existence check; in every other case, an empty path
    list with [allowEmptyConfig] included, it returns a container with a
    store and no error. *)
Theorem Load_NoSourcesFound_iff (paths : list string) (fs : Fs) (l : Logger)
    (allowEmptyConfig : bool) (w : World) :
  ∃ r w', Load Π paths fs l allowEmptyConfig w = Some (r, w') ∧
    ((∃ e, r = (None, Some e) ∧ errors_Is e ErrNoFilesFound = true) ↔
       (allowEmptyConfig = false ∧ Forall (λ p, Stat fs p ≠ None) paths)) ∧
    ((∃ c x v, r = (Some c, None) ∧ containers w' !! c = Some x ∧ viper x = Some v) ↔
       ¬ (allowEmptyConfig = false ∧ Forall (λ p, Stat fs p ≠ None) paths)).
Proof.
  destruct (decide (allowEmptyConfig = false ∧ loadable fs paths = [])) as [[-> Hnone]|Hgo].
  - eexists _, _. split; [by apply Load_run_error|].
    rewrite <- !loadable_nil. split.
    + split; [done|]. intros _. by eexists.
    + split; [by intros (c & x & v & [=] & _)|]. intros H. by destruct H.
  - eexists _, _. split; [by apply Load_run_container|].
    rewrite <- !loadable_nil. split.
    + split; [by intros (e & [=] & _)|]. intros H. by destruct Hgo.
    + split; [done|]. intros _. eexists _, _, _. split; [done|].
      split; [apply building_lookup|done].
Qed.

End load_facts.

(** ** The reader loop, source by source *)

Section readers_summary_facts.
Context (Π : Platform).

Lemma SetConfigType_spec (format : string) (fs : Fs) :
  let v := SetConfigType format (initViper Π fs) in
  v_configType v = format ∧ v_configFile v = "" ∧ v_config v = ∅ ∧
  v_onConfigChange v = None ∧ v_watching v = None.
Proof. unfold SetConfigType. by destruct (decide (format = "")) as [->|]. Qed.

Lemma MergeConfig_spec (content : string) (v : Viper) :
  let r := MergeConfig Π content v in
  sameSetup v r.1 ∧ v_configFile r.1 = v_configFile v ∧
  match decode Π (v_configType v) (v_configFile v) content with
  | Ok t => v_config r.1 = mergeMaps t (v_config v) ∧ r.2 = None
  | Err e => v_config r.1 = v_config v ∧ r.2 = Some e
  end.
Proof.
  unfold MergeConfig.
  destruct (decode Π (v_configType v) (v_configFile v) content); cbn; by repeat split.
Qed.

Lemma ReadConfig_spec (content : string) (v : Viper) :
  let r := ReadConfig Π content v in
  sameSetup v r.1 ∧ v_configFile r.1 = v_configFile v ∧
  match decode Π (v_configType v) (v_configFile v) content with
  | Ok t => v_config r.1 = t ∧ r.2 = None
  | Err e => v_config r.1 = ∅ ∧ r.2 = Some e
  end.
Proof.
  unfold ReadConfig.
  destruct (decode Π (v_configType v) (v_configFile v) content); cbn; by repeat split.
Qed.

Lemma mergeReaders_spec (l : Logger) (format : string) (readers : list string) :
  ∀ i v id lg,
  v_configType v = format → v_configFile v = "" →
  let st := foldl (mergeReaderStep Π l) (i, v, id, lg) readers in
  let rs := decode Π format "" <$> readers in
  sameSetup v st.1.1.2 ∧
  v_config st.1.1.2 = foldl (λ acc t, mergeMaps t acc) (v_config v) (decoded rs) ∧
  st.2 = lg ++ (warnRecord l <$> failures rs).
Proof.
  induction readers as [|f rest IH]; intros i v id lg Hty Hf.
  { cbn. rewrite app_nil_r. split; [apply sameSetup_refl|done]. }
  cbn [foldl mergeReaderStep fmap list_fmap].
  destruct (MergeConfig_spec f v) as (Hs1 & Hf1 & Hr). cbn zeta in Hs1, Hf1, Hr.
  set (r := MergeConfig Π f v) in *.
  rewrite Hty, Hf in Hr.
  assert (Hty1 : v_configType r.1 = format) by (destruct Hs1 as (_&_&_&_& -> & _); done).
  assert (Hf1' : v_configFile r.1 = "") by congruence.
  specialize (IH (S i) r.1 (id +:+ ";" +:+ pretty (i + 1)) (lg ++ warnOf l r.2) Hty1 Hf1').
  cbn zeta in IH. destruct IH as (Hs & Hc & Hl).
  split; [eauto using sameSetup_trans|]. split.
  - rewrite Hc. unfold decoded. cbn [omap list_omap].
    fold (decoded (decode Π format "" <$> rest)).
    destruct (decode Π format "" f) as [t|e]; cbn [foldl]; by destruct Hr as [-> _].
  - rewrite Hl. unfold failures. cbn [omap list_omap].
    fold (failures (decode Π format "" <$> rest)).
    destruct (decode Π format "" f) as [t|e]; destruct Hr as [_ ->]; cbn.
    + by rewrite app_nil_r.
    + by rewrite <- app_assoc.
Qed.

Lemma readersSummary_spec (l : Logger) (format : string) (readers : list string)
    (lg : list LogRecord) :
  let st := readersSummary Π l format readers lg in
  let rs := decode Π format "" <$> readers in
  v_config st.1.1 = layered (decoded rs) ∧
  st.2 = lg ++ (warnRecord l <$> failures rs) ++
           (if decide (1 < length readers) then [mkLog l Info "Loaded Config"] else []) ∧
  v_onConfigChange st.1.1 = None ∧
  v_watching st.1.1 = None.
Proof.
  unfold readersSummary.
  destruct (SetConfigType_spec format (osFs Π)) as (Hty0 & Hf0 & Hc0 & Ho0 & Hw0).
  cbn zeta in Hty0, Hf0, Hc0, Ho0, Hw0.
  set (v0 := SetConfigType format (initViper Π (osFs Π))) in *.
  destruct readers as [|r0 rest].
  { cbn. rewrite app_nil_r. by repeat split. }
  cbn [firstReader fmap list_fmap].
  destruct (ReadConfig_spec r0 v0) as (Hs1 & Hf1 & Hr). cbn zeta in Hs1, Hf1, Hr.
  set (r := ReadConfig Π r0 v0) in *.
  rewrite Hty0, Hf0 in Hr.
  assert (Hty1 : v_configType r.1 = format) by (destruct Hs1 as (_&_&_&_& -> & _); done).
  assert (Hf1' : v_configFile r.1 = "") by congruence.
  assert (Hw1 : v_watching r.1 = None) by (destruct Hs1 as (_&_&_&_&_&_&_& ->); done).
  assert (Ho1 : v_onConfigChange r.1 = None) by (destruct Hs1 as (_&_&_&_&_&_& -> &_); done).
  assert (Hcfg : v_config r.1 = layered (decoded [decode Π format "" r0])).
  { unfold layered, decoded. cbn. destruct (decode Π format "" r0) as [t|e]; cbn.
    - destruct Hr as [-> _]. by rewrite mergeMaps_empty.
    - by destruct Hr as [-> _]. }
  assert (Hlog : lg ++ warnOf l r.2 =
                 lg ++ (warnRecord l <$> failures [decode Π format "" r0])).
  { unfold failures. cbn. by destruct (decode Π format "" r0); destruct Hr as [_ ->]. }
  cbn [fst snd].
  destruct (decide (1 < length (r0 :: rest))) as [Hlen|Hlen].
  - change (drop 1 (r0 :: rest)) with rest.
    destruct (mergeReaders_spec l format rest 0 r.1 "0" (lg ++ warnOf l r.2) Hty1 Hf1')
      as (Hs & Hc & Hl).
    cbn zeta in Hs, Hc, Hl.
    destruct (foldl (mergeReaderStep Π l) (0, r.1, "0", lg ++ warnOf l r.2) rest)
      as [[[i2 v2] id2] lg2]. cbn [fst snd] in *.
    split; [|split; [|split]].
    + rewrite Hc, Hcfg. unfold layered, decoded. cbn [omap list_omap].
      by destruct (decode Π format "" r0).
    + rewrite Hl, Hlog. unfold failures. cbn [omap list_omap].
      destruct (decode Π format "" r0); cbn; by rewrite <- ?app_assoc.
    + destruct Hs as (_&_&_&_&_&_& -> &_). done.
    + destruct Hs as (_&_&_&_&_&_&_& ->). done.
  - assert (rest = []) as -> by (destruct rest; [done|cbn in Hlen; lia]).
    cbn [fst snd fmap list_fmap].
    split; [done|]. split; [by rewrite Hlog, app_nil_r|]. done.
Qed.

End readers_summary_facts.

(** ** Layered sources *)

Section layering.
Context (Π : Platform).

Lemma decoded_all_ok {A} (g : A → Result Settings) (xs : list A) (trees : list Settings) :
  Forall2 (λ x t, g x = Ok t) xs trees → decoded (g <$> xs) = trees.
Proof.
  unfold decoded. induction 1 as [|x t xs trees Hx _ IH]; [done|].
  cbn. rewrite Hx. cbn. by rewrite IH.
Qed.

Lemma failures_all_ok {A} (g : A → Result Settings) (xs : list A) (trees : list Settings) :
  Forall2 (λ x t, g x = Ok t) xs trees → failures (g <$> xs) = [].
Proof.
  unfold failures. induction 1 as [|x t xs trees Hx _ IH]; [done|].
  cbn. rewrite Hx. cbn. by rewrite IH.
Qed.

Lemma source_ok_nonempty (fs : Fs) (files : list string) (trees : list Settings) :
  Forall2 (λ f t, source Π fs f = Ok t) files trees → Forall (λ f, f ≠ "") files.
Proof.
  induction 1 as [|f t files trees Hf _ IH]; constructor; [|done].
  intros ->. unfold source in Hf. by destruct (decide ("" = "")).
Qed.

Lemma construct_holds (l : Logger) (srcs : Sources) (trees : list Settings) (w : World) :
  decodeTo Π srcs trees →
  ∃ c w', construct Π l srcs w = Some (c, w') ∧ holds w' c (layered trees).
Proof.
  destruct srcs as [fs files|format readers]; cbn [decodeTo construct]; intros Hdec.
  - rewrite NewFilesContainer_run. cbn zeta. eexists _, _. split; [done|].
    eexists _, _. split; [apply building_lookup|]. split; [done|]. cbn [viper].
    destruct (filesSummary_spec Π l fs (length (containers w)) files (log w))
      as (_ & -> & _).
    unfold outcomes. rewrite resolved_nonempty by by eapply source_ok_nonempty.
    by rewrite (decoded_all_ok _ _ trees).
  - rewrite NewReaderContainer_run. cbn zeta. eexists _, _. split; [done|].
    eexists _, _. split; [apply building_lookup|]. split; [done|]. cbn [viper].
    destruct (readersSummary_spec Π l format readers (log w)) as (-> & _).
    by rewrite (decoded_all_ok _ _ trees).
Qed.

Lemma layered_laterWinsUnlessMap (trees : list Settings) :
  laterWinsUnlessMap (layered trees) trees.
Proof. intros pre t post p x -> Ht Hpost Hpre. by apply layered_last_wins. Qed.

Lemma layered_earlierKept (trees : list Settings) : earlierKept (layered trees) trees.
Proof. intros pre post p -> Hpost. by apply layered_inherit. Qed.

(** C2, as the code has it. For sources of either kind that are all
    present and decode, the constructor returns a container whose settings
    are the sources merged in order, each over what came before. In the
    merged settings a leaf of a source that no later source redefines is
    the value at its key, unless the earlier sources hold a nested map at
    that very key (the store keeps the map); and a key that the later
    sources do not define reads as it did before them, so siblings
    survive. *)
Theorem sources_layered_in_order (l : Logger) (srcs : Sources) (trees : list Settings)
    (w : World) :
  decodeTo Π srcs trees →
  ∃ c w', construct Π l srcs w = Some (c, w') ∧
    holds w' c (layered trees) ∧
    laterWinsUnlessMap (layered trees) trees ∧
    earlierKept (layered trees) trees.
Proof.
  intros Hdec. destruct (construct_holds l srcs trees w Hdec) as (c & w' & Hrun & Hh).
  exists c, w'. eauto using layered_laterWinsUnlessMap, layered_earlierKept.
Qed.

End layering.

(** ** File sources that fail *)

Section file_failures.
Context (Π : Platform).

(** C6. When at least one path passes the existence filter, [Load]
    returns a container and no error, whatever happens when the files are
    read. Each source that fails to resolve, read or decode leaves exactly
    one warning in the log and nothing in the settings: these are the
    sources that did decode, merged in order, over the empty defaults when
    the first one failed. Every source gets its turn. *)
Theorem Load_file_failures_not_surfaced (paths : list string) (fs : Fs) (l : Logger)
    (allowEmptyConfig : bool) (w : World) :
  loadable fs paths ≠ [] →
  let rs := outcomes Π fs (loadable fs paths) in
  ∃ c w', Load Π paths fs l allowEmptyConfig w = Some ((Some c, None), w') ∧
    holds w' c (layered (decoded rs)) ∧
    log w' = log w ++ [mkLog l Debug "Loading configuration"] ++
               (warnRecord l <$> failures rs) ++
               (if decide (1 < length (loadable fs paths))
                then [mkLog l Info "Loaded Config"] else []) ∧
    length rs = length (loadable fs paths) ∧
    (Forall (λ p, p ≠ "") paths → rs = source Π fs <$> loadable fs paths).
Proof.
  intros Hsome rs.
  rewrite Load_run_container by (intros [_ ?]; done). cbn zeta.
  destruct (filesSummary_spec Π l fs (length (containers w)) (loadable fs paths)
              (log w ++ [mkLog l Debug "Loading configuration"]))
    as (_ & Hc & Hl & _).
  eexists _, _. split; [done|]. split; [|split; [|split]].
  - eexists _, _. split; [apply building_lookup|]. by split.
  - cbn [log building]. rewrite Hl. by rewrite <- app_assoc.
  - apply outcomes_length.
  - intros Hne. unfold rs, outcomes. rewrite resolved_nonempty; [done|].
    unfold loadable. apply Forall_forall. intros p Hp.
    apply list_elem_of_filter in Hp as [_ Hp].
    by eapply Forall_forall in Hne.
Qed.

End file_failures.

(** ** The watch *)

Section watch.
Context (Π : Platform).

Lemma lastNonEmpty_last (files : list string) :
  Forall (λ f, f ≠ "") files → lastNonEmpty files = last files.
Proof.
  intros H. unfold lastNonEmpty. f_equal.
  induction H as [|f rest Hf _ IH]; [done|].
  by rewrite filter_cons_True, IH.
Qed.

(** C7, as the code has it. A container built from files registers the
    notification callback exactly when it was given two or more files, and
    the store then watches the file it was last pointed at: the last
    non-empty name of the list, not the first. A container built from no
    file, from one file, or from readers registers nothing and watches
    nothing. *)
Theorem watch_is_on_last_file (l : Logger) (srcs : Sources) (w : World) :
  ∃ c w' x v, construct Π l srcs w = Some (c, w') ∧
    containers w' !! c = Some x ∧ viper x = Some v ∧
    v_onConfigChange v =
      match srcs with
      | FileSources _ files =>
          if decide (2 ≤ length files) then Some (NotifyObservers c) else None
      | ReaderSources _ _ => None
      end ∧
    v_watching v =
      match srcs with
      | FileSources _ files =>
          if decide (2 ≤ length files) then lastNonEmpty files else None
      | ReaderSources _ _ => None
      end.
Proof.
  destruct srcs as [fs files|format readers]; cbn [construct].
  - rewrite NewFilesContainer_run. cbn zeta. eexists _, _, _, _.
    split; [done|]. split; [apply building_lookup|]. split; [done|].
    destruct (filesSummary_spec Π l fs (length (containers w)) files (log w))
      as (_ & _ & _ & _ & -> & ->).
    split; destruct (decide (1 < length files)), (decide (2 ≤ length files)); done || lia.
  - rewrite NewReaderContainer_run. cbn zeta. eexists _, _, _, _.
    split; [done|]. split; [apply building_lookup|]. split; [done|].
    by destruct (readersSummary_spec Π l format readers (log w)) as (_ & _ & -> & ->).
Qed.

End watch.

(** ** Embedded sources *)

Section embedded.
Context (Π : Platform).

Lemma readEmbedded_ok (fs : EmbeddedFileReader) (paths : list string) :
  ∀ (contents configs : list string) (w : World),
  Forall2 (λ p content, fs p = Ok content) paths contents →
  readEmbedded fs paths configs w =
  Some (Ok (configs ++ contents),
        mkWorld (containers w) (arrays w) (log w) (reads w ++ paths)).
Proof.
  induction paths as [|p rest IH]; intros contents configs w Hok.
  { inversion_clear Hok. cbn. rewrite !app_nil_r. by destruct w. }
  inversion Hok as [|? content ? contents' Hp Hrest]; subst.
  cbn [readEmbedded]. unfold embedReadFile.
  rewrite bind_assoc_run. erewrite (bind_run (noteRead _)) by reflexivity.
  erewrite bind_run by reflexivity. rewrite Hp.
  rewrite (IH contents') by done. cbn. by rewrite <- !app_assoc.
Qed.

Lemma readEmbedded_fail (fs : EmbeddedFileReader) (pre : list string) :
  ∀ (path : string) (post : list string) (err : error) (configs : list string) (w : World),
  Forall (λ p, ∃ content, fs p = Ok content) pre →
  fs path = Err err →
  readEmbedded fs (pre ++ path :: post) configs w =
  Some (Err (EWrap (Some ("failed to read embedded config file " +:+ path)) err),
        mkWorld (containers w) (arrays w) (log w) (reads w ++ pre ++ [path])).
Proof.
  induction pre as [|p rest IH]; intros path post err configs w Hpre Hpath.
  - cbn [app readEmbedded]. unfold embedReadFile.
    rewrite bind_assoc_run. erewrite (bind_run (noteRead _)) by reflexivity.
    erewrite bind_run by reflexivity. by rewrite Hpath.
  - inversion_clear Hpre as [|? ? [content Hp] Hrest].
    cbn [app readEmbedded]. unfold embedReadFile.
    rewrite bind_assoc_run. erewrite (bind_run (noteRead _)) by reflexivity.
    erewrite bind_run by reflexivity. rewrite Hp.
    rewrite (IH path post err) by done. cbn. by rewrite <- !app_assoc.
Qed.

(** The first source that fails to read splits the list. *)
Lemma first_failure (fs : EmbeddedFileReader) (paths : list string) :
  Exists (λ p, ∃ e, fs p = Err e) paths →
  ∃ pre path post err,
    paths = pre ++ path :: post ∧
    Forall (λ p, ∃ content, fs p = Ok content) pre ∧
    fs path = Err err.
Proof.
  induction paths as [|p rest IH]; intros Hex; [by inversion Hex|].
  destruct (fs p) as [content|e] eqn:Hp.
  - inversion_clear Hex as [? ? [e He]|? ? Hrest]; [congruence|].
    destruct (IH Hrest) as (pre & path & post & err & -> & Hpre & Hpath).
    exists (p :: pre), path, post, err. split; [done|]. split; [|done].
    constructor; eauto.
  - exists [], p, rest, e. by repeat split.
Qed.

(** C5. If reading any of the embedded sources fails, [LoadEmbed] stops at
    the first that does: it returns no container and the reader's error
    wrapped under a prefix that names that source; no later source is read
    and no container has been made. *)
Theorem LoadEmbed_read_failure (paths : list string) (fs : EmbeddedFileReader)
    (l : Logger) (w : World) :
  Exists (λ p, ∃ e, fs p = Err e) paths →
  ∃ pre path post err w',
    paths = pre ++ path :: post ∧
    Forall (λ p, ∃ content, fs p = Ok content) pre ∧
    fs path = Err err ∧
    LoadEmbed Π paths fs l w =
      Some ((None, Some (EWrap (Some ("failed to read embedded config file " +:+ path)) err)),
            w') ∧
    containers w' = containers w ∧
    arrays w' = arrays w ∧
    reads w' = reads w ++ pre ++ [path].
Proof.
  intros Hex.
  destruct (first_failure fs paths Hex) as (pre & path & post & err & -> & Hpre & Hpath).
  eexists pre, path, post, err, _. split; [done|]. split; [done|]. split; [done|].
  unfold LoadEmbed.
  erewrite (bind_run (logMsg _ _ _)) by reflexivity.
  erewrite bind_run by by apply readEmbedded_fail.
  by cbn.
Qed.

(** C10. [LoadEmbed] with no source names returns a container and no
    error; the container's store is there and empty, and nothing was
    read. *)
Theorem LoadEmbed_no_sources (fs : EmbeddedFileReader) (l : Logger) (w : World) :
  ∃ c w', LoadEmbed Π [] fs l w = Some ((Some c, None), w') ∧
    holds w' c ∅ ∧
    reads w' = reads w.
Proof.
  unfold LoadEmbed.
  erewrite (bind_run (logMsg _ _ _)) by reflexivity.
  erewrite (bind_run (readEmbedded _ _ _)) by reflexivity.
  cbn match. erewrite bind_run by apply NewReaderContainer_run.
  eexists _, _. split; [done|]. split; [|done].
  eexists _, _. split; [apply building_lookup|]. by split.
Qed.

End embedded.

(** ** Observer slices: who owns which array *)

Section slices.
Context (Π : Platform).

Lemma slice_ok_inv (arrs : list (list Observable)) (s : slice) :
  slice_ok arrs s →
  ∃ a, arrs !! s_arr s = Some a ∧ length a = s_cap s ∧ s_len s ≤ s_cap s.
Proof. unfold slice_ok. destruct (arrs !! s_arr s) as [a|]; [|done]. eauto. Qed.

Lemma slice_ok_intro (arrs : list (list Observable)) (s : slice) (a : list Observable) :
  arrs !! s_arr s = Some a → length a = s_cap s → s_len s ≤ s_cap s → slice_ok arrs s.
Proof. unfold slice_ok. by intros ->. Qed.

Lemma slice_ok_grow (arrs : list (list Observable)) (a : list Observable) (s : slice) :
  slice_ok arrs s → slice_ok (arrs ++ [a]) s.
Proof.
  intros (b & Hb & ? & ?)%slice_ok_inv.
  apply (slice_ok_intro _ _ b); [by apply lookup_app_l_Some|done..].
Qed.

Lemma wf_empty : wf_world empty_world.
Proof. split; constructor. Qed.

Lemma wf_arr_bound (w : World) (x : Container) :
  wf_world w → x ∈ containers w → s_arr (observers x) < length (arrays w).
Proof.
  intros [Hok _] Hx. eapply Forall_forall in Hok; [|done].
  apply slice_ok_inv in Hok as (a & Ha & _). by eapply lookup_lt_Some.
Qed.

(** A new container on a fresh empty array keeps the world in shape: what
    the constructors and [Sub] do. *)
Lemma wf_new_container (w : World) id vp l lg rd :
  wf_world w →
  wf_world (building (containers w) (mkContainer id vp l (Slice (length (arrays w)) 0 0))
              (arrays w ++ [[]]) lg rd).
Proof.
  intros Hwf. pose proof Hwf as [Hok Hnd]. split; cbn.
  - apply Forall_app. split.
    + eapply Forall_impl; [done|]. intros x. apply slice_ok_grow.
    + constructor; [|done]. cbn.
      apply (slice_ok_intro _ _ []); cbn; [by rewrite list_lookup_middle|done..].
  - rewrite fmap_app. cbn. apply NoDup_app. split; [done|]. split; [|apply NoDup_singleton].
    intros n Hn ->%list_elem_of_singleton.
    apply list_elem_of_fmap in Hn as (x & Hx & Hin).
    pose proof (wf_arr_bound w x Hwf Hin). lia.
Qed.

(** Store calls and identity changes leave the slices alone. *)
Lemma wf_setContainer (w : World) (c : ptr) (x y : Container) :
  wf_world w → containers w !! c = Some x → observers y = observers x →
  wf_world (setContainer c y w).
Proof.
  intros [Hok Hnd] Hc Hobs. split; cbn.
  - apply Forall_insert; [done|]. rewrite Hobs.
    eapply Forall_lookup_1 in Hok; done.
  - rewrite list_fmap_insert, Hobs. rewrite list_insert_id; [done|].
    by rewrite list_lookup_fmap, Hc.
Qed.

Lemma elem_of_insert_inv {A} (l : list A) (i : nat) (x y : A) :
  y ∈ <[i:=x]> l → y = x ∨ y ∈ l.
Proof.
  revert i. induction l as [|z l IH]; intros i; [cbn; by intros ?%elem_of_nil|].
  destruct i as [|i]; cbn; rewrite !elem_of_cons; [tauto|].
  intros [->|H]; [tauto|]. destruct (IH i H); tauto.
Qed.

Lemma NoDup_insert_fresh {A} (l : list A) (i : nat) (x : A) :
  NoDup l → x ∉ l → NoDup (<[i:=x]> l).
Proof.
  revert i. induction l as [|z l IH]; intros i Hnd Hx; [done|].
  apply NoDup_cons in Hnd as [Hz Hnd]. apply not_elem_of_cons in Hx as [Hxz Hx].
  destruct i as [|i]; cbn; apply NoDup_cons.
  - done.
  - split; [|by apply IH]. intros [->|H]%elem_of_insert_inv; done.
Qed.

Lemma observers_of_lookup (w : World) (c : ptr) (x : Container) :
  containers w !! c = Some x → observers_of w c = Some (slice_elems w (observers x)).
Proof. intros H. unfold observers_of. by rewrite H. Qed.

Lemma append_in_place (s : slice) (o : Observable) (a : list Observable) (w : World) :
  s_len s < s_cap s → arrays w !! s_arr s = Some a →
  append Π s o w =
  Some (Slice (s_arr s) (S (s_len s)) (s_cap s),
        mkWorld (containers w) (<[s_arr s := <[s_len s := o]> a]> (arrays w))
          (log w) (reads w)).
Proof.
  intros Hlt Ha. unfold append. rewrite Ha. by destruct (decide (s_len s < s_cap s)).
Qed.

Lemma append_moves (s : slice) (o : Observable) (w : World) :
  ¬ s_len s < s_cap s →
  append Π s o w =
  Some (Slice (length (arrays w)) (S (s_len s)) (S (s_len s) `max` growcap Π (s_cap s)),
        mkWorld (containers w)
          (arrays w ++ [slice_elems w s ++
             o :: replicate ((S (s_len s) `max` growcap Π (s_cap s)) - S (s_len s)) ONil])
          (log w) (reads w)).
Proof. intros Hge. unfold append. by destruct (decide (s_len s < s_cap s)). Qed.

(** [AddObserver] on a container of a world in shape: it returns, the
    container's list grows by the observer at its end, every other
    container's list reads as before, and the world stays in shape. *)
Lemma AddObserver_spec (w : World) (c : ptr) (x : Container) (o : Observable) :
  wf_world w → containers w !! c = Some x →
  ∃ w', AddObserver Π c o w = Some (tt, w') ∧
    wf_world w' ∧
    observers_of w' c = Some (slice_elems w (observers x) ++ [o]) ∧
    (∀ d, d ≠ c → observers_of w' d = observers_of w d).
Proof.
  intros Hwf Hc. pose proof Hwf as [Hok Hnd].
  pose proof (Forall_lookup_1 _ _ _ _ Hok Hc) as Hx.
  apply slice_ok_inv in Hx as (a & Ha & Hlen & Hle).
  destruct x as [id vp l [arr len cap]]. cbn [observers s_arr s_len s_cap] in *.
  unfold AddObserver.
  rewrite (bind_run _ _ _ _ _ (load_run _ _ _ Hc)). cbn [observers].
  destruct (decide (len < cap)) as [Hlt|Hge].
  - (* spare capacity: the cell is written in place *)
    rewrite (bind_run _ _ _ _ _ (append_in_place (Slice arr len cap) o a w Hlt Ha)).
    cbn [s_arr s_len s_cap].
    set (w1 := mkWorld (containers w) (<[arr := <[len := o]> a]> (arrays w)) (log w) (reads w)).
    assert (Hc1 : containers w1 !! c = Some (mkContainer id vp l (Slice arr len cap))) by done.
    rewrite (bind_run _ _ _ _ _ (load_run _ _ _ Hc1)).
    rewrite (store_run _ _ _ _ Hc1). eexists. split; [done|].
    assert (Hlook : ∀ d y, d ≠ c → containers w !! d = Some y →
              <[arr := <[len := o]> a]> (arrays w) !! s_arr (observers y) =
              arrays w !! s_arr (observers y)).
    { intros d y Hdc Hd. apply list_lookup_insert_ne. intros Heq.
      apply Hdc. eapply NoDup_lookup; [exact Hnd|..].
      - rewrite list_lookup_fmap, Hd. cbn. by rewrite <- Heq.
      - by rewrite list_lookup_fmap, Hc. }
    split; [|split].
    + split; cbn.
      * apply Forall_lookup_2. intros d y Hd.
        destruct (decide (d = c)) as [->|Hdc].
        -- rewrite list_lookup_insert_eq in Hd by by eapply lookup_lt_Some.
           simplify_eq. eapply slice_ok_intro; cbn.
           ++ apply list_lookup_insert_eq. by eapply lookup_lt_Some.
           ++ by rewrite length_insert.
           ++ lia.
        -- rewrite list_lookup_insert_ne in Hd by done.
           pose proof (Forall_lookup_1 _ _ _ _ Hok Hd) as Hy.
           unfold slice_ok in *. by rewrite (Hlook d y).
      * rewrite list_fmap_insert. cbn. rewrite list_insert_id; [done|].
        by rewrite list_lookup_fmap, Hc.
    + unfold observers_of. rewrite (setContainer_lookup _ _ _ _ Hc1). cbn.
      unfold slice_elems. cbn.
      rewrite list_lookup_insert_eq by by eapply lookup_lt_Some. cbn.
      rewrite Ha. cbn.
      rewrite (take_S_r _ _ o) by (apply list_lookup_insert_eq; lia).
      by rewrite take_insert_ge by lia.
    + intros d Hdc. unfold observers_of.
      rewrite setContainer_lookup_ne by done. cbn.
      destruct (containers w !! d) as [y|] eqn:Hd; [|done]. cbn.
      unfold slice_elems. cbn. by rewrite (Hlook d y).
  - (* no spare capacity: the elements move to a new array *)
    rewrite (bind_run _ _ _ _ _ (append_moves (Slice arr len cap) o w Hge)).
    cbn [s_arr s_len s_cap].
    set (newcap := S len `max` growcap Π cap).
    set (a' := slice_elems w (Slice arr len cap) ++ o :: replicate (newcap - S len) ONil).
    set (w1 := mkWorld (containers w) (arrays w ++ [a']) (log w) (reads w)).
    assert (Hc1 : containers w1 !! c = Some (mkContainer id vp l (Slice arr len cap))) by done.
    rewrite (bind_run _ _ _ _ _ (load_run _ _ _ Hc1)).
    rewrite (store_run _ _ _ _ Hc1). eexists. split; [done|].
    assert (Hel : length (slice_elems w (Slice arr len cap)) = len).
    { unfold slice_elems. cbn. rewrite Ha. cbn. apply length_take_le. lia. }
    split; [|split].
    + split; cbn.
      * apply Forall_lookup_2. intros d y Hd.
        destruct (decide (d = c)) as [->|Hdc].
        -- rewrite list_lookup_insert_eq in Hd by by eapply lookup_lt_Some.
           injection Hd as <-. apply (slice_ok_intro _ _ a'); cbn [observers s_arr s_len s_cap].
           ++ by rewrite list_lookup_middle.
           ++ unfold a'. rewrite length_app, Hel. cbn. rewrite length_replicate.
              unfold newcap. lia.
           ++ unfold newcap. lia.
        -- rewrite list_lookup_insert_ne in Hd by done.
           apply slice_ok_grow. by eapply Forall_lookup_1 in Hok.
      * rewrite list_fmap_insert. cbn. apply NoDup_insert_fresh; [done|].
        intros Hin. apply list_elem_of_fmap in Hin as (y & Hy & Hin).
        pose proof (wf_arr_bound w y Hwf Hin). lia.
    + unfold observers_of. rewrite (setContainer_lookup _ _ _ _ Hc1). cbn.
      rewrite list_lookup_middle by done. cbn.
      rewrite cons_middle, app_assoc.
      rewrite take_app_length'; [done|].
      rewrite length_app, length_take_le; [cbn; lia|]. rewrite Ha. cbn. lia.
    + intros d Hdc. unfold observers_of.
      rewrite setContainer_lookup_ne by done. cbn.
      destruct (containers w !! d) as [y|] eqn:Hd; [|done]. cbn.
      unfold slice_elems. cbn.
      pose proof (Forall_lookup_1 _ _ _ _ Hok Hd) as (b & Hb & _)%slice_ok_inv.
      by rewrite (lookup_app_l_Some _ _ _ _ Hb), Hb.
Qed.

End slices.

(** ** Subtree containers *)

Section subtree.
Context (Π : Platform).

Lemma Sub_run (w : World) (c : ptr) (x : Container) (v : Viper) (key : string) :
  containers w !! c = Some x → viper x = Some v →
  Sub Π c key w =
  Some (length (containers w),
        building (containers w)
          (mkContainer (ID x +:+ "#" +:+ key) (Store.Sub Π key v) (logger x)
             (Slice (length (arrays w)) 0 0))
          (arrays w ++ [[]]) (log w) (reads w)).
Proof.
  intros Hc Hv. unfold Sub.
  rewrite (bind_run _ _ _ _ _ (load_run _ _ _ Hc)).
  rewrite (bind_run _ _ _ _ _ (callViper_read c x v (Store.Sub Π key) w Hc Hv)).
  erewrite (bind_run make0) by reflexivity.
  by destruct w.
Qed.

(** Calling [Sub] through a container whose store is [nil] panics. *)
Lemma Sub_nil_store (w : World) (c : ptr) (x : Container) (key : string) :
  containers w !! c = Some x → viper x = None → Sub Π c key w = None.
Proof.
  intros Hc Hv. unfold Sub.
  rewrite (bind_run _ _ _ _ _ (load_run _ _ _ Hc)).
  apply bind_panic. by apply (callViper_nil c x).
Qed.

Lemma building_other cs x arrs lg rd (d : ptr) (y : Container) :
  cs !! d = Some y → containers (building cs x arrs lg rd) !! d = Some y.
Proof. intros H. cbn. by apply lookup_app_l_Some. Qed.

Lemma observers_of_grow (w : World) (x : Container) (a : list Observable) lg rd (d : ptr) :
  wf_world w → d < length (containers w) →
  observers_of (building (containers w) x (arrays w ++ [a]) lg rd) d = observers_of w d.
Proof.
  intros [Hok _] Hd. apply lookup_lt_is_Some in Hd as [y Hy].
  unfold observers_of. rewrite (building_other _ _ _ _ _ _ _ Hy), Hy. cbn.
  unfold slice_elems. cbn.
  pose proof (Forall_lookup_1 _ _ _ _ Hok Hy) as (b & Hb & _)%slice_ok_inv.
  by rewrite (lookup_app_l_Some _ _ _ _ Hb), Hb.
Qed.

Lemma registeredOn_cons (side : bool) (r : bool * Observable) (regs : list (bool * Observable)) :
  registeredOn side (r :: regs) =
  (if decide (r.1 = side) then [r.2] else []) ++ registeredOn side regs.
Proof.
  unfold registeredOn. destruct (decide (r.1 = side)).
  - by rewrite filter_cons_True.
  - by rewrite filter_cons_False.
Qed.

(** Any run of registrations on two different containers: each list grows
    by what was registered on it, in order, and by nothing else. *)
Lemma registerAll_spec (c s : ptr) (regs : list (bool * Observable)) :
  ∀ (w : World) (oc os : list Observable),
  wf_world w → c ≠ s →
  observers_of w c = Some oc → observers_of w s = Some os →
  ∃ w', registerAll Π c s regs w = Some (tt, w') ∧
    wf_world w' ∧
    observers_of w' c = Some (oc ++ registeredOn false regs) ∧
    observers_of w' s = Some (os ++ registeredOn true regs).
Proof.
  induction regs as [|[side o] regs IH]; intros w oc os Hwf Hne Hc Hs.
  { exists w. unfold registeredOn. cbn. by rewrite !app_nil_r. }
  unfold registerAll. cbn [forM_ fst snd].
  rewrite !registeredOn_cons. cbn [fst snd].
  unfold observers_of in Hc, Hs.
  destruct (containers w !! c) as [x|] eqn:Hxc; [|done].
  destruct (containers w !! s) as [y|] eqn:Hys; [|done].
  cbn in Hc, Hs. simplify_eq.
  destruct side.
  - destruct (AddObserver_spec Π w s y o Hwf Hys) as (w1 & Hrun & Hwf1 & Hs1 & Hfr).
    rewrite (bind_run _ _ _ _ _ Hrun).
    destruct (IH w1 (slice_elems w (observers x)) (slice_elems w (observers y) ++ [o]))
      as (w2 & Hrun2 & Hwf2 & Hc2 & Hs2); [done|done| |done|].
    { rewrite Hfr by done. by apply observers_of_lookup. }
    exists w2. split; [done|]. split; [done|].
    destruct (decide (true = false)); [done|]. destruct (decide (true = true)); [|done].
    by rewrite Hc2, Hs2, <- app_assoc.
  - destruct (AddObserver_spec Π w c x o Hwf Hxc) as (w1 & Hrun & Hwf1 & Hc1 & Hfr).
    rewrite (bind_run _ _ _ _ _ Hrun).
    destruct (IH w1 (slice_elems w (observers x) ++ [o]) (slice_elems w (observers y)))
      as (w2 & Hrun2 & Hwf2 & Hc2 & Hs2); [done|done|done| |].
    { rewrite Hfr by done. by apply observers_of_lookup. }
    exists w2. split; [done|]. split; [done|].
    destruct (decide (false = true)); [done|]. destruct (decide (false = false)); [|done].
    by rewrite Hc2, Hs2, <- app_assoc.
Qed.

(** Being in shape is a matter of containers and arrays only. *)
Lemma wf_world_frame (w : World) (lg : list LogRecord) (rd : list string) :
  wf_world w → wf_world (mkWorld (containers w) (arrays w) lg rd).
Proof. by intros [? ?]. Qed.

(** The constructors leave the world in shape, so every world the package
    builds from the empty one is. *)
Lemma construct_keeps_shape (l : Logger) (srcs : Sources) (w : World) :
  wf_world w → ∃ c w', construct Π l srcs w = Some (c, w') ∧ wf_world w'.
Proof.
  intros Hwf. destruct srcs as [fs files|format readers]; cbn [construct].
  - rewrite NewFilesContainer_run. cbn zeta. eexists _, _. split; [done|].
    by apply wf_new_container.
  - rewrite NewReaderContainer_run. cbn zeta. eexists _, _. split; [done|].
    by apply wf_new_container.
Qed.

Lemma Load_keeps_shape (paths : list string) (fs : Fs) (l : Logger) (allow : bool)
    (w : World) :
  wf_world w → ∃ r w', Load Π paths fs l allow w = Some (r, w') ∧ wf_world w'.
Proof.
  intros Hwf.
  destruct (decide (allow = false ∧ loadable fs paths = [])) as [[-> Hnone]|Hgo].
  - rewrite Load_run_error by done. eexists _, _. split; [done|].
    by apply wf_world_frame.
  - rewrite Load_run_container by done. cbn zeta. eexists _, _. split; [done|].
    by apply wf_new_container.
Qed.

(** [AddObserverFunc] registers the function wrapped as an [Observer]. *)
Lemma AddObserverFunc_wraps (c : ptr) (f : Handler) (w : World) :
  AddObserverFunc Π c f w = AddObserver Π c (Observer f) w.
Proof. done. Qed.

(** [GetObservers] hands out the slice whose elements are the list. *)
Lemma GetObservers_reads (w : World) (c : ptr) (x : Container) :
  containers w !! c = Some x →
  ∃ s, GetObservers c w = Some (s, w) ∧ observers_of w c = Some (slice_elems w s).
Proof.
  intros Hc. exists (observers x). unfold GetObservers.
  rewrite (bind_run _ _ _ _ _ (load_run _ _ _ Hc)).
  split; [done|]. by apply observers_of_lookup.
Qed.

(** C8. [Sub] on a container that has a store, in a world in shape,
    returns a new container: its identity is the parent's followed by ["#"]
    and the key, it carries the parent's logger, and its observer list is
    empty. The two lists are independent: after any run of registrations
    on the two, the parent's list is what it was followed by what was
    registered on the parent, and the subtree's list is what was registered
    on the subtree. *)
Theorem Sub_identity_and_own_observers (w : World) (c : ptr) (x : Container) (v : Viper)
    (key : string) :
  wf_world w → containers w !! c = Some x → viper x = Some v →
  ∃ s w1 y,
    Sub Π c key w = Some (s, w1) ∧ s ≠ c ∧
    containers w1 !! s = Some y ∧ containers w1 !! c = Some x ∧
    ID y = ID x +:+ "#" +:+ key ∧ logger y = logger x ∧
    observers_of w1 s = Some [] ∧ observers_of w1 c = observers_of w c ∧
    wf_world w1 ∧
    ∀ regs, ∃ w2,
      registerAll Π c s regs w1 = Some (tt, w2) ∧
      observers_of w2 c = (λ oc, oc ++ registeredOn false regs) <$> observers_of w c ∧
      observers_of w2 s = Some (registeredOn true regs).
Proof.
  intros Hwf Hc Hv. rewrite (Sub_run w c x v key Hc Hv).
  pose proof (lookup_lt_Some _ _ _ Hc) as Hlt.
  set (y := mkContainer (ID x +:+ "#" +:+ key) (Store.Sub Π key v) (logger x)
              (Slice (length (arrays w)) 0 0)).
  set (w1 := building (containers w) y (arrays w ++ [[]]) (log w) (reads w)).
  assert (Hwf1 : wf_world w1) by by apply wf_new_container.
  assert (Hs1 : observers_of w1 (length (containers w)) = Some []).
  { unfold observers_of, w1. by rewrite building_lookup. }
  assert (Hc1 : observers_of w1 c = observers_of w c) by by apply observers_of_grow.
  exists (length (containers w)), w1, y.
  split; [done|]. split; [lia|]. split; [apply building_lookup|].
  split; [by apply building_other|]. split; [done|]. split; [done|].
  split; [done|]. split; [done|]. split; [done|].
  intros regs.
  destruct (registerAll_spec c (length (containers w)) regs w1
              (slice_elems w (observers x)) []) as (w2 & Hrun & _ & Hc2 & Hs2);
    [done|lia| |done|].
  { rewrite Hc1. by apply observers_of_lookup. }
  exists w2. split; [done|]. split; [|done].
  by rewrite Hc2, (observers_of_lookup w c x).
Qed.

(** What [Sub] builds when the key has no value, or a value that is not a
    map: a container whose store pointer is [nil]. *)
Lemma Sub_missing_key (w : World) (c : ptr) (x : Container) (v : Viper) (key : string) :
  containers w !! c = Some x → viper x = Some v →
  (∀ m, Store.Get key v ≠ Some (Map m)) →
  ∃ s w1 y, Sub Π c key w = Some (s, w1) ∧
    containers w1 !! s = Some y ∧ viper y = None.
Proof.
  intros Hc Hv Hmiss. rewrite (Sub_run w c x v key Hc Hv).
  eexists _, _, _. split; [done|]. split; [apply building_lookup|]. cbn.
  unfold Store.Sub. destruct (Store.Get key v) as [[z|m]|] eqn:E; [done| |done].
  by destruct (Hmiss m).
Qed.

(** Every accessor of a container with a [nil] store panics. *)
Lemma nil_store_panics (w : World) (s : ptr) (y : Container) (key : string) :
  containers w !! s = Some y → viper y = None →
  Get s key w = None ∧ Has s key w = None ∧ ToJSON Π s w = None ∧ Sub Π s key w = None.
Proof.
  intros Hs Hv. repeat split.
  - by apply (callViper_nil s y).
  - by apply (callViper_nil s y).
  - apply bind_panic. by apply (callViper_nil s y).
  - by apply (Sub_nil_store w s y).
Qed.

End subtree.

(** ** ToJSON *)

Section to_json.
Context (Π : Platform).

(** C9. [ToJSON] on a container with a store always returns a string and
    never an error. When the encoder succeeds the string is the encoding of
    the store's settings and nothing is logged; when it fails the string is
    empty and one error record is logged. The containers are untouched
    either way. *)
Theorem ToJSON_never_propagates (w : World) (c : ptr) (x : Container) (v : Viper) :
  containers w !! c = Some x → viper x = Some v →
  ∃ out w', ToJSON Π c w = Some (out, w') ∧
    containers w' = containers w ∧
    match json_Marshal Π (allSettings Π v) with
    | Ok bs => out = bs ∧ log w' = log w
    | Err _ =>
        out = "" ∧
        log w' = log w ++ [mkLog (logger x) Error "unable to marshal config to YAML"]
    end.
Proof.
  intros Hc Hv. unfold ToJSON.
  rewrite (bind_run _ _ _ _ _ (callViper_read c x v (allSettings Π) w Hc Hv)).
  destruct (json_Marshal Π (allSettings Π v)) as [bs|e].
  - by eexists _, _.
  - rewrite (bind_run _ _ _ _ _ (load_run _ _ _ Hc)).
    erewrite (bind_run (logMsg _ _ _)) by reflexivity.
    by eexists _, _.
Qed.

End to_json.

(** ** The notification round *)

Import Round.

Section round_facts.
Context (c : ptr) (errs : chan).

Lemma insert_split {A} (l : list A) (i : nat) (x y : A) :
  l !! i = Some x →
  ∃ l1 l2, l = l1 ++ x :: l2 ∧ <[i:=y]> l = l1 ++ y :: l2.
Proof.
  intros H. exists (take i l), (drop (S i) l). split.
  - by rewrite take_drop_middle.
  - apply insert_take_drop. by eapply lookup_lt_Some.
Qed.

Lemma pending_app (l1 l2 : list Task) : pending (l1 ++ l2) = pending l1 ++ pending l2.
Proof. apply filter_app. Qed.

Lemma started_app (l1 l2 : list Task) : started (l1 ++ l2) = started l1 ++ started l2.
Proof. apply filter_app. Qed.

Lemma pending_cons (t : Task) (l : list Task) :
  pending (t :: l) = (if decide (t_state t ≠ Done) then [t] else []) ++ pending l.
Proof.
  unfold pending. destruct (decide (t_state t ≠ Done)).
  - by rewrite filter_cons_True.
  - by rewrite filter_cons_False.
Qed.

Lemma started_cons (t : Task) (l : list Task) :
  started (t :: l) = (if decide (t_state t ≠ Spawned) then [t] else []) ++ started l.
Proof.
  unfold started. destruct (decide (t_state t ≠ Spawned)).
  - by rewrite filter_cons_True.
  - by rewrite filter_cons_False.
Qed.

Lemma started_length (l : list Task) : length (started l) ≤ length l.
Proof. apply length_filter. Qed.

Lemma pending_nil_all_done (l : list Task) :
  pending l = [] → Forall (λ t, t_state t = Done) l ∧ started l = l.
Proof.
  induction l as [|tk l IH]; [by intros _; split; [constructor|]|].
  rewrite pending_cons, started_cons.
  destruct (decide (t_state tk ≠ Done)) as [|Hd]; [done|].
  apply dec_stable in Hd. intros [Hall Hst]%IH. split; [by constructor|].
  rewrite Hd, Hst. destruct (decide (Done ≠ Spawned)) as [|Hn]; [done|]. by destruct Hn.
Qed.

(** Settle the tests on task states that [pending] and [started] leave. *)
Local Ltac states :=
  repeat match goal with
    | |- context [decide (?a ≠ ?b)] =>
        destruct (decide (a ≠ b)); [try congruence|try (exfalso; naive_solver congruence)]
    | H : context [decide (?a ≠ ?b)] |- _ =>
        destruct (decide (a ≠ b)); [try congruence|try (exfalso; naive_solver congruence)]
    end.

Lemma inv_init (obs : list Observable) : inv c errs obs (init obs).
Proof. by repeat split. Qed.

(** Every step keeps the invariant. *)
Lemma inv_step (obs : list Observable) (s s' : State) :
  inv c errs obs s → step c errs s s' → inv c errs obs s'.
Proof.
  intros (Hsnap & Hwg & Hcalls & Hpc) Hstep.
  destruct Hstep as [s o rest _ Hp|s _ Hp|s _ Hp Hz|s i o _ Hi Ho|s i o st _ Hi Hst
                     |s i o _ Hi|s i o _ Hi|s o _];
    unfold inv; cbn [pc snapshot wg tasks calls registry crashed].
  - (* spawn *)
    rewrite Hp in Hpc. split; [done|].
    rewrite pending_app, started_app, pending_cons, started_cons. cbn. states.
    rewrite length_app, !app_nil_r. cbn. split; [lia|]. split; [done|].
    by rewrite fmap_app, <- app_assoc.
  - (* the loop ends *)
    rewrite Hp in Hpc. rewrite app_nil_r in Hpc. done.
  - (* Wait returns *)
    rewrite Hp in Hpc. done.
  - (* a goroutine enters Run *)
    destruct (insert_split _ _ _ (mkTask o Running) Hi) as (l1 & l2 & Hl & ->).
    rewrite Hl in Hwg, Hcalls, Hpc. split; [done|].
    rewrite pending_app, pending_cons, started_app, started_cons in *. cbn in *. states.
    rewrite !length_app in *. cbn in *.
    split; [done|]. split.
    + rewrite Hcalls, !fmap_app. cbn.
      rewrite <- !app_assoc. apply Permutation_app_head.
      by rewrite Permutation_app_comm.
    + by rewrite fmap_app in *.
  - (* a goroutine panics *)
    done.
  - (* Run returns *)
    destruct (insert_split _ _ _ (mkTask o Returned) Hi) as (l1 & l2 & Hl & ->).
    rewrite Hl in Hwg, Hcalls, Hpc. split; [done|].
    rewrite pending_app, pending_cons, started_app, started_cons in *. cbn in *. states.
    rewrite !length_app in *. cbn in *.
    split; [done|]. split; [by rewrite !fmap_app in *|].
    by rewrite fmap_app in *.
  - (* Done *)
    destruct (insert_split _ _ _ (mkTask o Done) Hi) as (l1 & l2 & Hl & ->).
    rewrite Hl in Hwg, Hcalls, Hpc. split; [done|].
    rewrite pending_app, pending_cons, started_app, started_cons in *. cbn in *. states.
    rewrite !length_app in *. cbn in *.
    split; [lia|]. split; [by rewrite !fmap_app in *|].
    rewrite fmap_app in *. cbn in *.
    destruct (pc s); [done|done|]. destruct Hpc as [_ Hz]. lia.
  - (* a registration elsewhere *)
    done.
Qed.

Lemma inv_steps (obs : list Observable) (s : State) :
  steps c errs (init obs) s → inv c errs obs s.
Proof.
  unfold steps. revert s. apply rtc_ind_r; [apply inv_init|].
  intros s1 s2 _ Hstep IH. by eapply inv_step.
Qed.

(** C3. Take the round that a change event starts for a container whose
    observer list reads as [obs], and any interleaving of the handler, the
    goroutines it starts and registrations made elsewhere. At no point have
    more than [length obs] calls of [Run] been made. Once the handler has
    returned, the calls made are, up to order, exactly one per observer of
    [obs], each with the container and the round's channel, and every
    goroutine is past its [wg.Done()], so every call has returned. *)
Theorem round_runs_every_observer_once (w : World) (s0 s : State) :
  onChange c w = Some s0 →
  steps c errs s0 s →
  ∃ obs, observers_of w c = Some obs ∧
    length (calls s) ≤ length obs ∧
    (pc s = Exited →
       calls s ≡ₚ (λ o, (o, c, errs)) <$> obs ∧
       t_obs <$> tasks s = obs ∧
       Forall (λ t, t_state t = Done) (tasks s)).
Proof.
  unfold onChange. intros Hev Hrun.
  destruct (observers_of w c) as [obs|]; [|done]. injection Hev as <-.
  exists obs. split; [done|].
  apply inv_steps in Hrun as (Hsnap & Hwg & Hcalls & Hpc). split.
  - rewrite Hcalls, length_fmap.
    etrans; [apply started_length|].
    assert (length (t_obs <$> tasks s) ≤ length obs) as Hle.
    { destruct (pc s) as [rest| |].
      - rewrite <- Hpc, length_app. lia.
      - by rewrite Hpc.
      - by destruct Hpc as [-> _]. }
    by rewrite length_fmap in Hle.
  - intros Hex. rewrite Hex in Hpc. destruct Hpc as [Hobs Hz].
    assert (pending (tasks s) = []) as Hnone.
    { apply length_zero_iff_nil. lia. }
    apply pending_nil_all_done in Hnone as [Hall Hst].
    split; [|done].
    rewrite Hcalls, Hst, <- Hobs, <- list_fmap_compose. done.
Qed.

(** The round does end when the observers return: the schedule that runs
    each goroutine to its end as soon as it is started. *)
Lemma round_can_finish_from (rest : list Observable) :
  ∀ pre reg,
  Forall (λ o, o ≠ ONil) rest →
  steps c errs
    (mkState (Ranging rest) reg (pre ++ rest) 0 (all_done pre)
       ((λ o, (o, c, errs)) <$> pre) false)
    (mkState Exited reg (pre ++ rest) 0 (all_done (pre ++ rest))
       ((λ o, (o, c, errs)) <$> (pre ++ rest)) false).
Proof.
  induction rest as [|o rest IH]; intros pre reg Hnn.
  - rewrite app_nil_r.
    eapply rtc_l; [by apply step_range_end|]. cbn.
    eapply rtc_l; [by apply step_wait|]. cbn. done.
  - inversion_clear Hnn as [|? ? Ho Hrest].
    assert (Hlen : length (all_done pre) = length pre) by apply length_fmap.
    eapply rtc_l; [by eapply step_spawn|]. cbn.
    eapply rtc_l.
    { apply (step_run _ _ _ (length pre) o); [done| |done]. cbn.
      by rewrite <- Hlen, list_lookup_middle. }
    cbn. rewrite <- Hlen at 1. rewrite insert_app_r_alt, Nat.sub_diag by lia. cbn.
    eapply rtc_l.
    { apply (step_return _ _ _ (length pre) o); [done|]. cbn.
      by rewrite <- Hlen, list_lookup_middle. }
    cbn. rewrite <- Hlen at 1. rewrite insert_app_r_alt, Nat.sub_diag by lia. cbn.
    eapply rtc_l.
    { apply (step_done _ _ _ (length pre) o); [done|]. cbn.
      by rewrite <- Hlen, list_lookup_middle. }
    cbn. rewrite <- Hlen at 1. rewrite insert_app_r_alt, Nat.sub_diag by lia. cbn.
    specialize (IH (pre ++ [o]) reg Hrest).
    unfold all_done in *. rewrite !fmap_app in IH. cbn in IH.
    rewrite <- !app_assoc in IH. cbn in IH.
    replace (0 + 1 - 1)%Z with 0%Z by lia. rewrite !fmap_app. exact IH.
Qed.

Lemma round_can_finish (obs : list Observable) :
  Forall (λ o, o ≠ ONil) obs → steps c errs (init obs) (finished c errs obs []).
Proof.
  intros H. pose proof (round_can_finish_from obs [] obs H) as Hrun.
  unfold finished. by rewrite app_nil_r.
Qed.

End round_facts.

(** * Concrete runs *)

Import Fixtures.

(** C4, at the key ["missing"] of a container loaded from one reader with
    [yaml: {key: value, bool: true}]: the key is not in the configuration,
    [Sub] returns a new container with the parent's logger and an empty
    observer list, but the container's store pointer is [nil], and reading
    through it panics. *)
Theorem Sub_missing_key_nil_store :
  ∃ c w1 s w2 y,
    NewReaderContainer toy 0 "yaml" ["first"] empty_world = Some (c, w1) ∧
    Has c "missing" w1 = Some (false, w1) ∧
    Sub toy c "missing" w1 = Some (s, w2) ∧
    containers w2 !! s = Some y ∧
    logger y = 0 ∧ observers_of w2 s = Some [] ∧
    viper y = None ∧
    Get s "key" w2 = None ∧ Has s "key" w2 = None ∧ ToJSON toy s w2 = None.
Proof.
  eexists _, _, _, _, _.
  split; [by rewrite NewReaderContainer_run|]. cbn zeta.
  split; [by vm_compute|].
  split; [by vm_compute|].
  split; [by vm_compute|].
  by vm_compute.
Qed.

(** C2, as stated, fails on two readers of which the first holds a nested
    map under ["a"] and the second a scalar: the merged settings keep the
    map, so the key the later source defines does not take the later
    source's value. *)
Lemma later_scalar_does_not_replace_map :
  ∃ c w',
    decodeTo toy (ReaderSources "yaml" ["nested"; "scalar"]) [nestedYaml; scalarYaml] ∧
    construct toy 0 (ReaderSources "yaml" ["nested"; "scalar"]) empty_world = Some (c, w') ∧
    holds w' c (layered [nestedYaml; scalarYaml]) ∧
    Get c "a" w' = Some (Some (Map {[ "b" := Leaf (SInt 1) ]}), w') ∧
    ¬ laterWins (layered [nestedYaml; scalarYaml]) [nestedYaml; scalarYaml].
Proof.
  eexists _, _.
  split; [by repeat constructor|].
  split; [by cbn [construct]; rewrite NewReaderContainer_run|]. cbn zeta.
  split; [eexists _, _; by vm_compute|].
  split; [by vm_compute|].
  intros H.
  specialize (H [nestedYaml] scalarYaml [] ["a"] (SInt 5) eq_refl eq_refl (Forall_nil_2 _)).
  by vm_compute in H.
Qed.

(** C7, as stated, fails on the files of the test suite: after loading
    [first.yml] and [second.yml] the store watches [second.yml], the file
    loaded last, and not the first. *)
Lemma watch_not_on_first_file :
  ∃ c w' x v,
    NewFilesContainer toy 0 memFs ["first.yml"; "second.yml"] empty_world = Some (c, w') ∧
    containers w' !! c = Some x ∧ viper x = Some v ∧
    v_watching v = Some "second.yml" ∧
    v_watching v ≠ head ["first.yml"; "second.yml"].
Proof.
  eexists _, _, _, _.
  split; [by rewrite NewFilesContainer_run|]. cbn zeta.
  split; [apply building_lookup|]. split; [done|].
  by vm_compute.
Qed.

(** The example of the test suite: [first.yml] then [second.yml]. The later
    value of [yaml.key] wins, the new key [yaml.more.key2] is there, and the
    sibling [yaml.bool] of the first file survives. *)
Example merge_of_the_test_files :
  ∃ c w',
    NewFilesContainer toy 0 memFs ["first.yml"; "second.yml"] empty_world = Some (c, w') ∧
    Get c "yaml.key" w' = Some (Some (Leaf (SStr "value2")), w') ∧
    Get c "yaml.more.key2" w' = Some (Some (Leaf (SStr "secondfile")), w') ∧
    Get c "yaml.bool" w' = Some (Some (Leaf (SBool true)), w').
Proof.
  eexists _, _.
  split; [by rewrite NewFilesContainer_run|]. cbn zeta.
  by vm_compute.
Qed.

(** *** Instances of the theorems that have premises *)

Lemma sources_layered_in_order_witness :
  decodeTo toy (FileSources memFs ["first.yml"; "second.yml"]) [firstYaml; secondYaml] ∧
  ∃ c w',
    construct toy 0 (FileSources memFs ["first.yml"; "second.yml"]) empty_world
      = Some (c, w') ∧
    holds w' c (layered [firstYaml; secondYaml]) ∧
    laterWinsUnlessMap (layered [firstYaml; secondYaml]) [firstYaml; secondYaml] ∧
    earlierKept (layered [firstYaml; secondYaml]) [firstYaml; secondYaml].
Proof.
  split; [by repeat constructor|].
  apply (sources_layered_in_order toy 0
           (FileSources memFs ["first.yml"; "second.yml"]) [firstYaml; secondYaml]).
  by repeat constructor.
Defined.

Lemma LoadEmbed_read_failure_witness :
  Exists (λ p, ∃ e, oneAsset p = Err e) ["logging.yaml"; "nonexistent.yaml"; "late.yaml"] ∧
  ∃ pre path post err w',
    ["logging.yaml"; "nonexistent.yaml"; "late.yaml"] = pre ++ path :: post ∧
    Forall (λ p, ∃ content, oneAsset p = Ok content) pre ∧
    oneAsset path = Err err ∧
    LoadEmbed toy ["logging.yaml"; "nonexistent.yaml"; "late.yaml"] oneAsset 0 empty_world =
      Some ((None,
             Some (EWrap (Some ("failed to read embedded config file " +:+ path)) err)), w') ∧
    containers w' = containers empty_world ∧
    arrays w' = arrays empty_world ∧
    reads w' = reads empty_world ++ pre ++ [path].
Proof.
  assert (Exists (λ p, ∃ e, oneAsset p = Err e)
            ["logging.yaml"; "nonexistent.yaml"; "late.yaml"]) as Hex.
  { apply Exists_cons_tl, Exists_cons_hd. by eexists. }
  split; [exact Hex|].
  exact (LoadEmbed_read_failure toy _ oneAsset 0 empty_world Hex).
Defined.

Lemma Load_file_failures_not_surfaced_witness :
  loadable memFs ["broken.yml"; "missing.yml"; "second.yml"] ≠ [] ∧
  ∃ c w',
    Load toy ["broken.yml"; "missing.yml"; "second.yml"] memFs 0 false empty_world
      = Some ((Some c, None), w') ∧
    holds w' c secondYaml ∧
    filter (λ r, lr_level r = Warn) (log w') =
      [warnRecord 0 (ConfigParseError "cannot unmarshal")].
Proof.
  assert (loadable memFs ["broken.yml"; "missing.yml"; "second.yml"] ≠ []) as Hsome
    by by vm_compute.
  split; [exact Hsome|].
  destruct (Load_file_failures_not_surfaced toy
              ["broken.yml"; "missing.yml"; "second.yml"] memFs 0 false empty_world Hsome)
    as (c & w' & Hrun & Hholds & Hlog & _).
  exists c, w'. split; [exact Hrun|]. split.
  - exact Hholds.
  - rewrite Hlog. reflexivity.
Defined.

Lemma Sub_identity_and_own_observers_witness :
  wf_world loadedWorld ∧
  ∃ x v, containers loadedWorld !! 0 = Some x ∧ viper x = Some v ∧
  ∃ s w1 y,
    Sub toy 0 "yaml" loadedWorld = Some (s, w1) ∧ s ≠ 0 ∧
    containers w1 !! s = Some y ∧ containers w1 !! 0 = Some x ∧
    ID y = ID x +:+ "#" +:+ "yaml" ∧ logger y = logger x ∧
    observers_of w1 s = Some [] ∧ observers_of w1 0 = observers_of loadedWorld 0 ∧
    wf_world w1 ∧
    ∀ regs, ∃ w2,
      registerAll toy 0 s regs w1 = Some (tt, w2) ∧
      observers_of w2 0 =
        (λ oc, oc ++ registeredOn false regs) <$> observers_of loadedWorld 0 ∧
      observers_of w2 s = Some (registeredOn true regs).
Proof.
  assert (wf_world loadedWorld) as Hwf
    by (apply (bool_decide_unpack (wf_world loadedWorld)); by vm_compute).
  split; [exact Hwf|].
  eexists _, _. split; [reflexivity|]. split; [reflexivity|].
  eapply (Sub_identity_and_own_observers toy loadedWorld 0 _ _ "yaml" Hwf);
    reflexivity.
Defined.

Lemma ToJSON_never_propagates_witness :
  ∃ x v, containers loadedWorld !! 0 = Some x ∧ viper x = Some v ∧
  ∃ out w', ToJSON toy 0 loadedWorld = Some (out, w') ∧
    containers w' = containers loadedWorld ∧
    match json_Marshal toy (allSettings toy v) with
    | Ok bs => out = bs ∧ log w' = log loadedWorld
    | Err _ =>
        out = "" ∧
        log w' = log loadedWorld ++
                   [mkLog (logger x) Error "unable to marshal config to YAML"]
    end.
Proof.
  eexists _, _. split; [reflexivity|]. split; [reflexivity|].
  eapply (ToJSON_never_propagates toy loadedWorld 0); reflexivity.
Defined.

Lemma round_runs_every_observer_once_witness :
  onChange 0 observedWorld = Some (init [Impl 1; Observer 2]) ∧
  steps 0 7 (init [Impl 1; Observer 2]) (finished 0 7 [Impl 1; Observer 2] []) ∧
  ∃ obs, observers_of observedWorld 0 = Some obs ∧
    length (calls (finished 0 7 [Impl 1; Observer 2] [])) ≤ length obs ∧
    (pc (finished 0 7 [Impl 1; Observer 2] []) = Exited →
       calls (finished 0 7 [Impl 1; Observer 2] []) ≡ₚ (λ o, (o, 0, 7)) <$> obs ∧
       t_obs <$> tasks (finished 0 7 [Impl 1; Observer 2] []) = obs ∧
       Forall (λ t, t_state t = Done) (tasks (finished 0 7 [Impl 1; Observer 2] []))).
Proof.
  assert (steps 0 7 (init [Impl 1; Observer 2]) (finished 0 7 [Impl 1; Observer 2] []))
    as Hrun by (apply round_can_finish; by repeat constructor).
  split; [reflexivity|]. split; [exact Hrun|].
  exact (round_runs_every_observer_once 0 7 observedWorld (init [Impl 1; Observer 2])
           (finished 0 7 [Impl 1; Observer 2] []) eq_refl Hrun).
Defined.

(** * More of the package *)

(** ** Load and LoadEmbed *)

Section load_more.
Context (Π : Platform).

(** X1. A path that fails the existence check has no influence on what
    [Load] returns or does: the result and the world are those of the list
    without it, wherever in the list it stands. *)
Theorem Load_ignores_missing_path (pre post : list string) (p : string) (fs : Fs)
    (l : Logger) (allowEmptyConfig : bool) (w : World) :
  Stat fs p ≠ None →
  Load Π (pre ++ p :: post) fs l allowEmptyConfig w =
  Load Π (pre ++ post) fs l allowEmptyConfig w.
Proof.
  intros Hp.
  assert (loadable fs (pre ++ p :: post) = loadable fs (pre ++ post)) as Hl.
  { unfold loadable. rewrite !filter_app. by rewrite filter_cons_False. }
  unfold Load. by rewrite Hl.
Qed.

(** X2. With [allowEmptyConfig] set and no path that exists, [Load] gives
    a blank container: empty identity, a store with no settings that
    watches nothing and has no callback, no observers; the only thing
    logged is the debug line, so no file was even tried. *)
Theorem Load_allow_empty_blank_container (paths : list string) (fs : Fs) (l : Logger)
    (w : World) :
  Forall (λ p, Stat fs p ≠ None) paths →
  ∃ c w' x v,
    Load Π paths fs l true w = Some ((Some c, None), w') ∧
    containers w' !! c = Some x ∧ viper x = Some v ∧
    ID x = "" ∧ logger x = l ∧
    v_config v = ∅ ∧ v_fs v = fs ∧
    v_watching v = None ∧ v_onConfigChange v = None ∧
    observers_of w' c = Some [] ∧
    log w' = log w ++ [mkLog l Debug "Loading configuration"].
Proof.
  intros Hnone%loadable_nil.
  rewrite Load_run_container by (intros [? _]; done). rewrite Hnone. cbn zeta.
  eexists _, _, _, _. split; [done|]. split; [apply building_lookup|].
  split; [done|]. do 6 (split; [done|]). split; [|done].
  unfold observers_of. by rewrite building_lookup.
Qed.

(** [LoadEmbed] when every source reads. *)
Lemma LoadEmbed_run_container (paths contents : list string) (fs : EmbeddedFileReader)
    (l : Logger) (w : World) :
  Forall2 (λ p content, fs p = Ok content) paths contents →
  let lg0 := log w ++ [mkLog l Debug "Loading embedded configuration"] in
  let st := readersSummary Π l "yaml" contents lg0 in
  LoadEmbed Π paths fs l w =
  Some ((Some (length (containers w)), None),
        building (containers w)
          (mkContainer st.1.2 (Some st.1.1) l (Slice (length (arrays w)) 0 0))
          (arrays w ++ [[]]) st.2 (reads w ++ paths)).
Proof.
  intros Hok. unfold LoadEmbed.
  erewrite (bind_run (logMsg _ _ _)) by reflexivity.
  erewrite (bind_run (readEmbedded _ _ _)) by by apply readEmbedded_ok.
  cbn [app]. cbn match.
  erewrite bind_run by apply NewReaderContainer_run. done.
Qed.

Lemma all_read_or_first_failure (fs : EmbeddedFileReader) (paths : list string) :
  (∃ contents, Forall2 (λ p content, fs p = Ok content) paths contents) ∨
  Exists (λ p, ∃ e, fs p = Err e) paths.
Proof.
  induction paths as [|p rest IH]; [left; by exists []|].
  destruct (fs p) as [content|e] eqn:Hp.
  - destruct IH as [[contents Hc]|Hex].
    + left. exists (content :: contents). by constructor.
    + right. by apply Exists_cons_tl.
  - right. apply Exists_cons_hd. by exists e.
Qed.

(** X3. [LoadEmbed] always returns, and what decides between container
    and error is reading alone: it returns a container and no error exactly
    when every source reads, and an error and no container exactly when
    some source fails to read. Whether the content decodes plays no part. *)
Theorem LoadEmbed_container_iff_all_read (paths : list string) (fs : EmbeddedFileReader)
    (l : Logger) (w : World) :
  ∃ r w', LoadEmbed Π paths fs l w = Some (r, w') ∧
    ((∃ c, r = (Some c, None)) ↔ Forall (λ p, ∃ content, fs p = Ok content) paths) ∧
    ((∃ e, r = (None, Some e)) ↔ Exists (λ p, ∃ e, fs p = Err e) paths).
Proof.
  assert (Hexcl : Forall (λ p, ∃ content, fs p = Ok content) paths →
                  Exists (λ p, ∃ e, fs p = Err e) paths → False).
  { intros Hall Hex. apply Exists_exists in Hex as (p & Hin & e & He).
    eapply Forall_forall in Hall as [content Hc]; [|done]. congruence. }
  destruct (all_read_or_first_failure fs paths) as [[contents Hok]|Hex].
  - assert (Forall (λ p, ∃ content, fs p = Ok content) paths) as Hall.
    { clear Hexcl. induction Hok; constructor; eauto. }
    rewrite (LoadEmbed_run_container paths contents) by done. cbn zeta.
    eexists _, _. split; [done|]. split.
    + split; [done|]. intros _. by eexists.
    + split; [by intros (e & [=])|]. intros Hex. by destruct (Hexcl Hall Hex).
  - destruct (first_failure fs paths Hex) as (pre & path & post & err & -> & Hpre & Hpath).
    unfold LoadEmbed.
    erewrite (bind_run (logMsg _ _ _)) by reflexivity.
    erewrite bind_run by by apply readEmbedded_fail.
    eexists _, _. split; [done|]. split.
    + split; [by intros (c & [=])|]. intros Hall. by destruct (Hexcl Hall Hex).
    + split; [done|]. intros _. by eexists.
Qed.

(** X4. When every embedded source reads, content that does not decode is
    not an error: [LoadEmbed] returns a container whose settings are the
    contents that do decode, merged in order; each content that does not
    decode leaves one warning; every source was read once, in order. *)
Theorem LoadEmbed_decode_failures_not_fatal (paths contents : list string)
    (fs : EmbeddedFileReader) (l : Logger) (w : World) :
  Forall2 (λ p content, fs p = Ok content) paths contents →
  let rs := decode Π "yaml" "" <$> contents in
  ∃ c w', LoadEmbed Π paths fs l w = Some ((Some c, None), w') ∧
    holds w' c (layered (decoded rs)) ∧
    reads w' = reads w ++ paths ∧
    log w' = log w ++ [mkLog l Debug "Loading embedded configuration"] ++
               (warnRecord l <$> failures rs) ++
               (if decide (1 < length paths) then [mkLog l Info "Loaded Config"] else []).
Proof.
  intros Hok rs. rewrite (LoadEmbed_run_container paths contents) by done. cbn zeta.
  destruct (readersSummary_spec Π l "yaml" contents
              (log w ++ [mkLog l Debug "Loading embedded configuration"]))
    as (Hc & Hl & _).
  eexists _, _. split; [done|]. split; [|split; [done|]].
  - eexists _, _. split; [apply building_lookup|]. by split.
  - cbn [log building]. rewrite Hl, <- app_assoc.
    by rewrite (Forall2_length _ _ _ Hok).
Qed.

(** X15. Whether [Load] arms the watch goes by the paths that exist, not
    by the paths given: the container it returns has the notification
    callback exactly when two or more paths pass the existence check, and
    the store then watches the last of those. *)
Theorem Load_watch_counts_existing_paths (paths : list string) (fs : Fs) (l : Logger)
    (allowEmptyConfig : bool) (w : World) :
  ¬ (allowEmptyConfig = false ∧ Forall (λ p, Stat fs p ≠ None) paths) →
  ∃ c w' x v,
    Load Π paths fs l allowEmptyConfig w = Some ((Some c, None), w') ∧
    containers w' !! c = Some x ∧ viper x = Some v ∧
    v_onConfigChange v =
      (if decide (2 ≤ length (loadable fs paths)) then Some (NotifyObservers c) else None) ∧
    v_watching v =
      (if decide (2 ≤ length (loadable fs paths)) then lastNonEmpty (loadable fs paths)
       else None).
Proof.
  rewrite <- loadable_nil. intros Hgo.
  rewrite Load_run_container by done. cbn zeta.
  eexists _, _, _, _. split; [done|]. split; [apply building_lookup|]. split; [done|].
  destruct (filesSummary_spec Π l fs (length (containers w)) (loadable fs paths)
              (log w ++ [mkLog l Debug "Loading configuration"]))
    as (_ & _ & _ & _ & -> & ->).
  split; destruct (decide (1 < length (loadable fs paths))),
    (decide (2 ≤ length (loadable fs paths))); done || lia.
Qed.

End load_more.

(** ** Container identity *)

Section identity.
Context (Π : Platform).

Lemma string_app_cons (x : Ascii.ascii) (a b : string) :
  String x a +:+ b = String x (a +:+ b).
Proof. done. Qed.

Lemma string_app_assoc (a b c : string) : (a +:+ b) +:+ c = a +:+ b +:+ c.
Proof. induction a as [|x a IH]; [done|]. rewrite !string_app_cons. by f_equal. Qed.

Lemma concat_absorb (a b : string) (rest : list string) :
  String.concat ";" ((a +:+ ";" +:+ b) :: rest) = a +:+ ";" +:+ String.concat ";" (b :: rest).
Proof. destruct rest as [|c rest]; [done|]. cbn. by rewrite !string_app_assoc. Qed.

Lemma joinID_concat (rest : list string) : ∀ f0,
  joinID f0 rest = String.concat ";" (f0 :: rest).
Proof.
  induction rest as [|f1 rest IH]; intros f0; [done|].
  cbn [joinID]. rewrite IH, concat_absorb. done.
Qed.

Lemma mergeReaders_id (l : Logger) (readers : list string) : ∀ i v id lg,
  (foldl (mergeReaderStep Π l) (i, v, id, lg) readers).1.2 =
  joinID id (pretty <$> seq (S i) (length readers)).
Proof.
  induction readers as [|r rest IH]; intros i v id lg; [done|].
  cbn [foldl mergeReaderStep length seq fmap list_fmap joinID].
  rewrite IH. by rewrite Nat.add_1_r.
Qed.

Lemma readersSummary_id (l : Logger) (format : string) (readers : list string)
    (lg : list LogRecord) :
  (readersSummary Π l format readers lg).1.2 =
  String.concat ";" (pretty <$> seq 0 (length readers)).
Proof.
  unfold readersSummary. destruct readers as [|r0 rest]; [done|].
  cbn [firstReader fst snd]. destruct (decide (1 < length (r0 :: rest))) as [Hlen|Hlen].
  - change (drop 1 (r0 :: rest)) with rest.
    pose proof (mergeReaders_id l rest 0 (ReadConfig Π r0
      (SetConfigType format (initViper Π (osFs Π)))).1 "0"
      (lg ++ warnOf l (ReadConfig Π r0
         (SetConfigType format (initViper Π (osFs Π)))).2)) as Hid.
    destruct (foldl _ _ rest) as [[[i2 v2] id2] lg2]. cbn [fst snd] in *.
    rewrite Hid, joinID_concat. done.
  - assert (rest = []) as -> by (destruct rest; [done|cbn in Hlen; lia]). done.
Qed.

(** X5. The identity of a container is the list of its sources joined by
    [";"]: the file names as given for a container built from files, the
    positions [0], [1], ... for one built from readers, and the empty
    string when there is no source. A source that fails to read or decode
    is named all the same. *)
Theorem container_identity_joins_sources (l : Logger) (srcs : Sources) (w : World) :
  ∃ c w' x, construct Π l srcs w = Some (c, w') ∧
    containers w' !! c = Some x ∧
    ID x = String.concat ";"
             match srcs with
             | FileSources _ files => files
             | ReaderSources _ readers => pretty <$> seq 0 (length readers)
             end.
Proof.
  destruct srcs as [fs files|format readers]; cbn [construct].
  - rewrite NewFilesContainer_run. cbn zeta. eexists _, _, _.
    split; [done|]. split; [apply building_lookup|]. cbn [ID].
    destruct (filesSummary_spec Π l fs (length (containers w)) files (log w))
      as (_ & _ & _ & -> & _).
    destruct files as [|f0 rest]; [done|]. apply joinID_concat.
  - rewrite NewReaderContainer_run. cbn zeta. eexists _, _, _.
    split; [done|]. split; [apply building_lookup|]. cbn [ID].
    apply readersSummary_id.
Qed.

End identity.

(** ** Keys and subtrees *)

Section keys.
Context (Π : Platform).












End keys.

(** ** Registering observers *)

Section registering.
Context (Π : Platform).

Lemma registerEach_spec (c : ptr) (os : list Observable) :
  ∀ (w : World) (old : list Observable),
  wf_world w → observers_of w c = Some old →
  ∃ w', registerEach Π c os w = Some (tt, w') ∧
    wf_world w' ∧
    observers_of w' c = Some (old ++ os) ∧
    (∀ d, d ≠ c → observers_of w' d = observers_of w d).
Proof.
  induction os as [|o os IH]; intros w old Hwf Hold.
  { exists w. by rewrite app_nil_r. }
  unfold registerEach. cbn [forM_].
  unfold observers_of in Hold.
  destruct (containers w !! c) as [x|] eqn:Hc; [|done]. cbn in Hold. simplify_eq.
  destruct (AddObserver_spec Π w c x o Hwf Hc) as (w1 & Hrun & Hwf1 & Hc1 & Hfr).
  rewrite (bind_run _ _ _ _ _ Hrun).
  destruct (IH w1 _ Hwf1 Hc1) as (w2 & Hrun2 & Hwf2 & Hc2 & Hfr2).
  exists w2. split; [done|]. split; [done|]. split.
  - by rewrite Hc2, <- app_assoc.
  - intros d Hd. by rewrite Hfr2, Hfr.
Qed.

(** X9. Observers are kept in registration order: after [AddObserver] for
    each observer of a list, in order, [GetObservers] hands out a slice
    that reads as the old list followed by that list, whatever the slice
    had to do to grow; every other container's list reads as before and
    the world stays in shape. *)
Theorem AddObserver_keeps_registration_order (w : World) (c : ptr)
    (old os : list Observable) :
  wf_world w → observers_of w c = Some old →
  ∃ w' s,
    registerEach Π c os w = Some (tt, w') ∧
    GetObservers c w' = Some (s, w') ∧
    slice_elems w' s = old ++ os ∧
    s_len s = length old + length os ∧
    (∀ d, d ≠ c → observers_of w' d = observers_of w d) ∧
    wf_world w'.
Proof.
  intros Hwf Hold.
  destruct (registerEach_spec c os w old Hwf Hold) as (w' & Hrun & Hwf' & Hc' & Hfr).
  unfold observers_of in Hc'.
  destruct (containers w' !! c) as [x'|] eqn:Hx'; [|done]. cbn in Hc'.
  injection Hc' as Hel.
  exists w', (observers x'). split; [done|].
  split; [unfold GetObservers; by rewrite (bind_run _ _ _ _ _ (load_run _ _ _ Hx'))|].
  split; [done|]. split; [|done].
  pose proof Hwf' as [Hok _].
  pose proof (Forall_lookup_1 _ _ _ _ Hok Hx') as (a & Ha & Hlen & Hle)%slice_ok_inv.
  rewrite <- length_app, <- Hel. unfold slice_elems. rewrite Ha. cbn.
  rewrite length_take_le; lia.
Qed.

End registering.

(** ** More on the notification round *)

Section round_more.
Context (Π : Platform) (c : ptr) (errs : chan).

(** What a finished round has called. *)
Lemma round_exit_calls (obs : list Observable) (s : State) :
  steps c errs (init obs) s → pc s = Exited →
  calls s ≡ₚ (λ o, (o, c, errs)) <$> obs.
Proof.
  intros (Hsnap & Hwg & Hcalls & Hpc)%inv_steps Hex.
  rewrite Hex in Hpc. destruct Hpc as [Hobs Hz].
  assert (pending (tasks s) = []) as Hnone by (apply length_zero_iff_nil; lia).
  apply pending_nil_all_done in Hnone as [_ Hst].
  by rewrite Hcalls, Hst, <- Hobs, <- list_fmap_compose.
Qed.

Lemma handlerCalls_of_observers (f : Handler) (obs : list Observable) :
  length (filter (λ k, k = (f, c, errs)) (handlerCalls ((λ o, (o, c, errs)) <$> obs))) =
  length (filter (λ o, o = Observer f) obs).
Proof.
  unfold handlerCalls. induction obs as [|o obs IH]; [done|].
  cbn [fmap list_fmap omap list_omap]. unfold Observer_Run at 1. cbn [fst snd].
  destruct o as [|h|i].
  - by rewrite (filter_cons_False _ ONil).
  - destruct (decide (h = f)) as [->|Hne].
    + rewrite !filter_cons_True by done. cbn. by rewrite IH.
    + rewrite !filter_cons_False by congruence. done.
  - by rewrite (filter_cons_False _ (Impl i)).
Qed.

(** X10. A function registered with [AddObserverFunc] is run by every
    round that follows: once the handler of a change event has returned,
    the function has been called with the container and the round's
    channel exactly once for each time it is registered, that is once more
    than its registrations before. *)
Theorem AddObserverFunc_is_run_each_round (w : World) (x : Container) (f : Handler) :
  wf_world w → containers w !! c = Some x →
  ∃ w', AddObserverFunc Π c f w = Some (tt, w') ∧
    ∀ s0 s, onChange c w' = Some s0 → steps c errs s0 s → pc s = Exited →
      length (filter (λ k, k = (f, c, errs)) (handlerCalls (calls s))) =
      S (length (filter (λ o, o = Observer f) (slice_elems w (observers x)))).
Proof.
  intros Hwf Hc.
  destruct (AddObserver_spec Π w c x (Observer f) Hwf Hc) as (w' & Hrun & _ & Hc' & _).
  exists w'. split; [done|]. intros s0 s Hev Hsteps Hex.
  unfold onChange in Hev. rewrite Hc' in Hev. injection Hev as <-.
  pose proof (round_exit_calls _ s Hsteps Hex) as Hcalls.
  unfold handlerCalls. rewrite Hcalls. fold (handlerCalls
    ((λ o, (o, c, errs)) <$> slice_elems w (observers x) ++ [Observer f])).
  rewrite handlerCalls_of_observers, filter_app, length_app.
  rewrite filter_cons_True by done. cbn. lia.
Qed.

(** Two more facts that every step keeps: the registry only grows at its
    end, and a goroutine for a nil observer never gets past its start. *)
Lemma round_inv_more (obs : list Observable) (s : State) :
  steps c errs (init obs) s →
  (∃ later, registry s = obs ++ later) ∧
  Forall (λ t, t_obs t = ONil → t_state t = Spawned) (tasks s).
Proof.
  unfold steps. revert s. apply rtc_ind_r.
  { split; [exists []; by rewrite app_nil_r|constructor]. }
  intros s1 s2 _ Hstep [[later Hreg] Hnil].
  destruct Hstep as [s o rest _ Hp|s _ Hp|s _ Hp Hz|s i o _ Hi Ho|s i o st _ Hi Hst
                     |s i o _ Hi|s i o _ Hi|s o _];
    cbn [registry tasks]; (split; [eauto|]); try done.
  - apply Forall_app. split; [done|]. by constructor.
  - apply Forall_insert; [done|]. by intros.
  - apply Forall_insert; [done|]. intros Ho. cbn in Ho. subst.
    by apply (Forall_lookup_1 _ _ _ _ Hnil) in Hi.
  - apply Forall_insert; [done|]. intros Ho. cbn in Ho. subst.
    by apply (Forall_lookup_1 _ _ _ _ Hnil) in Hi.
  - exists (later ++ [o]). by rewrite Hreg, app_assoc.
Qed.

(** X11. A round calls only what was registered when it started: at every
    point of every interleaving the calls made are, as a multiset, among
    one call per observer of the list the handler ranged over, each with
    the container and the round's channel. Observers registered while the
    round runs join the registry but are not called by it. *)
Theorem round_calls_only_the_snapshot (w : World) (s0 s : State) :
  onChange c w = Some s0 →
  steps c errs s0 s →
  ∃ obs later, observers_of w c = Some obs ∧
    registry s = obs ++ later ∧
    calls s ⊆+ (λ o, (o, c, errs)) <$> obs.
Proof.
  unfold onChange. intros Hev Hrun.
  destruct (observers_of w c) as [obs|]; [|done]. injection Hev as <-.
  destruct (round_inv_more obs s Hrun) as [[later Hreg] _].
  exists obs, later. split; [done|]. split; [done|].
  apply inv_steps in Hrun as (Hsnap & Hwg & Hcalls & Hpc).
  rewrite Hcalls.
  assert (t_obs <$> tasks s `sublist_of` obs) as Hsub.
  { destruct (pc s) as [rest| |].
    - rewrite <- Hpc. by apply sublist_inserts_r.
    - by rewrite Hpc.
    - by destruct Hpc as [-> _]. }
  apply sublist_submseteq.
  trans (callOf c errs <$> tasks s).
  - apply fmap_sublist, sublist_filter.
  - replace (callOf c errs <$> tasks s)
      with ((λ o, (o, c, errs)) <$> (t_obs <$> tasks s))
      by by rewrite <- list_fmap_compose.
    by apply fmap_sublist.
Qed.

(** X12. [AddObserver] takes a nil observer without complaint, and from
    then on no round of that container comes to an end: in no interleaving
    does the handler of a change event return. *)
Theorem nil_observer_blocks_the_round (w : World) (x : Container) :
  wf_world w → containers w !! c = Some x →
  ∃ w', AddObserver Π c ONil w = Some (tt, w') ∧
    ∀ s0 s, onChange c w' = Some s0 → steps c errs s0 s → pc s ≠ Exited.
Proof.
  intros Hwf Hc.
  destruct (AddObserver_spec Π w c x ONil Hwf Hc) as (w' & Hrun & _ & Hc' & _).
  exists w'. split; [done|]. intros s0 s Hev Hsteps Hex.
  unfold onChange in Hev. rewrite Hc' in Hev. injection Hev as <-.
  destruct (round_inv_more _ s Hsteps) as [_ Hnil].
  apply inv_steps in Hsteps as (Hsnap & Hwg & Hcalls & Hpc).
  rewrite Hex in Hpc. destruct Hpc as [Hobs Hz].
  assert (pending (tasks s) = []) as Hnone by (apply length_zero_iff_nil; lia).
  apply pending_nil_all_done in Hnone as [Hall _].
  assert (ONil ∈ t_obs <$> tasks s) as Hin.
  { rewrite Hobs. apply elem_of_app. right. by apply list_elem_of_singleton. }
  apply list_elem_of_fmap in Hin as (t & Ht & Hin).
  pose proof (proj1 (Forall_forall _ _) Hall t Hin) as Hd.
  pose proof (proj1 (Forall_forall _ _) Hnil t Hin (eq_sym Ht)) as Hs.
  congruence.
Qed.

End round_more.

(** ** Programs: any sequence of calls *)

Section programs.
Context (Π : Platform).

(** Container [y'] is container [y] but for the observer slice. *)
Local Abbreviation same_but_observers y y' :=
  (ID y' = ID y ∧ logger y' = logger y ∧ viper y' = viper y).

Lemma load_none (c : ptr) (w : World) : containers w !! c = None → load c w = None.
Proof. intros H. unfold load. by rewrite H. Qed.

Lemma LoadEmbed_run_error (pre post : list string) (path : string) (err : error)
    (fs : EmbeddedFileReader) (l : Logger) (w : World) :
  Forall (λ p, ∃ content, fs p = Ok content) pre → fs path = Err err →
  LoadEmbed Π (pre ++ path :: post) fs l w =
  Some ((None, Some (EWrap (Some ("failed to read embedded config file " +:+ path)) err)),
        mkWorld (containers w) (arrays w)
          (log w ++ [mkLog l Debug "Loading embedded configuration"])
          (reads w ++ pre ++ [path])).
Proof.
  intros Hpre Hpath. unfold LoadEmbed.
  erewrite (bind_run (logMsg _ _ _)) by reflexivity.
  erewrite bind_run by by apply readEmbedded_fail.
  done.
Qed.

(** What [AddObserver] does to the containers: the one it is called on
    gets a new slice header, nothing else. *)
Lemma AddObserver_containers (w w' : World) (c : ptr) (x : Container) (o : Observable) :
  containers w !! c = Some x → AddObserver Π c o w = Some (tt, w') →
  ∃ s', containers w' =
        <[c := mkContainer (ID x) (viper x) (logger x) s']> (containers w).
Proof.
  intros Hc. unfold AddObserver.
  rewrite (bind_run _ _ _ _ _ (load_run _ _ _ Hc)).
  destruct (decide (s_len (observers x) < s_cap (observers x))) as [Hlt|Hge].
  - destruct (arrays w !! s_arr (observers x)) as [a|] eqn:Ha.
    + rewrite (bind_run _ _ _ _ _ (append_in_place Π _ o a w Hlt Ha)).
      set (w1 := mkWorld _ _ _ _).
      assert (Hc1 : containers w1 !! c = Some x) by done.
      rewrite (bind_run _ _ _ _ _ (load_run _ _ _ Hc1)), (store_run _ _ _ _ Hc1).
      intros [= <-]. by eexists.
    + rewrite bind_panic; [done|]. unfold append. rewrite Ha.
      by destruct (decide (s_len (observers x) < s_cap (observers x))).
  - rewrite (bind_run _ _ _ _ _ (append_moves Π _ o w Hge)).
    set (w1 := mkWorld _ _ _ _).
    assert (Hc1 : containers w1 !! c = Some x) by done.
    rewrite (bind_run _ _ _ _ _ (load_run _ _ _ Hc1)), (store_run _ _ _ _ Hc1).
    intros [= <-]. by eexists.
Qed.

Lemma insert_keeps_but_observers (cs : list Container) (c d : ptr) (x y : Container) s' :
  cs !! c = Some x → cs !! d = Some y →
  ∃ y', <[c := mkContainer (ID x) (viper x) (logger x) s']> cs !! d = Some y' ∧
        same_but_observers y y'.
Proof.
  intros Hc Hd. destruct (decide (c = d)) as [->|Hne].
  - rewrite list_lookup_insert_eq by by eapply lookup_lt_Some.
    simplify_eq. by eexists.
  - rewrite list_lookup_insert_ne by done. by exists y.
Qed.

(** One call: the world stays in shape, and the containers that were
    there keep identity, logger and store. *)
Lemma runCall_keeps (k : Call) (w w' : World) :
  runCall Π k w = Some (tt, w') →
  (wf_world w → wf_world w') ∧
  ∀ d y, containers w !! d = Some y →
    ∃ y', containers w' !! d = Some y' ∧ same_but_observers y y'.
Proof.
  destruct k as [paths fs l allow|paths fs l|l fs files|l format readers|c key|c o|c f
                 |c|c key|c key|c]; cbn [runCall].
  - (* Load *)
    destruct (decide (allow = false ∧ loadable fs paths = [])) as [[-> Hnone]|Hgo].
    + rewrite (bind_run _ _ _ _ _ (Load_run_error Π paths fs l w Hnone)).
      intros [= <-]. split; [apply wf_world_frame|]. intros d y Hd. by exists y.
    + rewrite (bind_run _ _ _ _ _ (Load_run_container Π paths fs l allow w Hgo)).
      intros [= <-]. split; [apply wf_new_container|].
      intros d y Hd. exists y. split; [by apply building_other|done].
  - (* LoadEmbed *)
    destruct (all_read_or_first_failure fs paths) as [[contents Hok]|Hex].
    + rewrite (bind_run _ _ _ _ _ (LoadEmbed_run_container Π paths contents fs l w Hok)).
      intros [= <-]. split; [apply wf_new_container|].
      intros d y Hd. exists y. split; [by apply building_other|done].
    + destruct (first_failure fs paths Hex) as (pre & path & post & err & -> & Hpre & Hpath).
      rewrite (bind_run _ _ _ _ _ (LoadEmbed_run_error pre post path err fs l w Hpre Hpath)).
      intros [= <-]. split; [apply wf_world_frame|]. intros d y Hd. by exists y.
  - (* NewFilesContainer *)
    rewrite (bind_run _ _ _ _ _ (NewFilesContainer_run Π l fs files w)).
    intros [= <-]. split; [apply wf_new_container|].
    intros d y Hd. exists y. split; [by apply building_other|done].
  - (* NewReaderContainer *)
    rewrite (bind_run _ _ _ _ _ (NewReaderContainer_run Π l format readers w)).
    intros [= <-]. split; [apply wf_new_container|].
    intros d y Hd. exists y. split; [by apply building_other|done].
  - (* Sub *)
    destruct (containers w !! c) as [x|] eqn:Hc.
    2:{ rewrite bind_panic; [done|]. unfold Sub. by rewrite bind_panic by by apply load_none. }
    destruct (viper x) as [v|] eqn:Hv.
    2:{ rewrite bind_panic; [done|]. by apply (Sub_nil_store Π w c x). }
    rewrite (bind_run _ _ _ _ _ (Sub_run Π w c x v key Hc Hv)).
    intros [= <-]. split; [apply wf_new_container|].
    intros d y Hd. exists y. split; [by apply building_other|done].
  - (* AddObserver *)
    destruct (containers w !! c) as [x|] eqn:Hc.
    2:{ unfold AddObserver. by rewrite bind_panic by by apply load_none. }
    intros Hrun. split.
    + intros Hwf. destruct (AddObserver_spec Π w c x o Hwf Hc) as (w1 & Hrun1 & Hwf1 & _).
      congruence.
    + destruct (AddObserver_containers w w' c x o Hc Hrun) as [s' ->].
      intros d y Hd. by apply insert_keeps_but_observers.
  - (* AddObserverFunc *)
    unfold AddObserverFunc.
    destruct (containers w !! c) as [x|] eqn:Hc.
    2:{ unfold AddObserver. by rewrite bind_panic by by apply load_none. }
    intros Hrun. split.
    + intros Hwf.
      destruct (AddObserver_spec Π w c x (Observer f) Hwf Hc) as (w1 & Hrun1 & Hwf1 & _).
      congruence.
    + destruct (AddObserver_containers w w' c x _ Hc Hrun) as [s' ->].
      intros d y Hd. by apply insert_keeps_but_observers.
  - (* GetObservers *)
    destruct (containers w !! c) as [x|] eqn:Hc.
    2:{ unfold GetObservers. by rewrite !bind_panic by by apply bind_panic, load_none. }
    unfold GetObservers.
    rewrite bind_assoc_run, (bind_run _ _ _ _ _ (load_run _ _ _ Hc)).
    intros [= <-]. split; [done|]. intros d y Hd. by exists y.
  - (* Get *)
    destruct (containers w !! c) as [x|] eqn:Hc.
    2:{ unfold Get, callViper. by rewrite !bind_panic by by apply bind_panic, load_none. }
    destruct (viper x) as [v|] eqn:Hv.
    2:{ rewrite bind_panic; [done|]. by apply (callViper_nil c x). }
    unfold Get. rewrite (bind_run _ _ _ _ _ (callViper_read c x v _ w Hc Hv)).
    intros [= <-]. split; [done|]. intros d y Hd. by exists y.
  - (* Has *)
    destruct (containers w !! c) as [x|] eqn:Hc.
    2:{ unfold Has, callViper. by rewrite !bind_panic by by apply bind_panic, load_none. }
    destruct (viper x) as [v|] eqn:Hv.
    2:{ rewrite bind_panic; [done|]. by apply (callViper_nil c x). }
    unfold Has. rewrite (bind_run _ _ _ _ _ (callViper_read c x v _ w Hc Hv)).
    intros [= <-]. split; [done|]. intros d y Hd. by exists y.
  - (* ToJSON *)
    destruct (containers w !! c) as [x|] eqn:Hc.
    2:{ unfold ToJSON, callViper.
        by rewrite !bind_panic by by apply bind_panic, bind_panic, load_none. }
    destruct (viper x) as [v|] eqn:Hv.
    2:{ rewrite bind_panic; [done|]. unfold ToJSON. apply bind_panic.
        by apply (callViper_nil c x). }
    unfold ToJSON. rewrite bind_assoc_run.
    rewrite (bind_run _ _ _ _ _ (callViper_read c x v _ w Hc Hv)).
    destruct (json_Marshal Π (allSettings Π v)) as [bs|e].
    + intros [= <-]. split; [done|]. intros d y Hd. by exists y.
    + rewrite !bind_assoc_run, (bind_run _ _ _ _ _ (load_run _ _ _ Hc)).
      rewrite bind_assoc_run. erewrite (bind_run (logMsg _ _ _)) by reflexivity.
      intros [= <-]. split; [apply wf_world_frame|]. intros d y Hd. by exists y.
Qed.

Lemma runCalls_keeps (ks : list Call) : ∀ w w',
  runCalls Π ks w = Some (tt, w') →
  (wf_world w → wf_world w') ∧
  ∀ d y, containers w !! d = Some y →
    ∃ y', containers w' !! d = Some y' ∧ same_but_observers y y'.
Proof.
  induction ks as [|k ks IH]; intros w w' Hrun.
  { injection Hrun as <-. split; [done|]. intros d y Hd. by exists y. }
  unfold runCalls in Hrun. cbn [forM_] in Hrun.
  destruct (runCall Π k w) as [[[] w1]|] eqn:Hk; [|by rewrite bind_panic in Hrun].
  rewrite (bind_run _ _ _ _ _ Hk) in Hrun.
  destruct (runCall_keeps k w w1 Hk) as [Hwf1 Hsame1].
  destruct (IH w1 w' Hrun) as [Hwf2 Hsame2].
  split; [auto|]. intros d y Hd.
  destruct (Hsame1 d y Hd) as (y1 & Hd1 & ? & ? & ?).
  destruct (Hsame2 d y1 Hd1) as (y2 & Hd2 & ? & ? & ?).
  exists y2. split; [done|]. repeat split; congruence.
Qed.

(** X13. In every world that a program of package calls reaches from the
    empty world, no two containers share observer storage: registering an
    observer on any container returns, puts the observer at the end of
    that container's list, and leaves the list of every other container,
    parents and subtrees alike, as it was. *)
Theorem built_worlds_keep_observers_apart (w : World) (c : ptr) (x : Container)
    (o : Observable) :
  built Π w → containers w !! c = Some x →
  ∃ w', AddObserver Π c o w = Some (tt, w') ∧
    observers_of w' c = Some (slice_elems w (observers x) ++ [o]) ∧
    (∀ d, d ≠ c → observers_of w' d = observers_of w d) ∧
    built Π w'.
Proof.
  intros [ks Hks] Hc.
  destruct (runCalls_keeps ks _ _ Hks) as [Hwf _]. specialize (Hwf wf_empty).
  destruct (AddObserver_spec Π w c x o Hwf Hc) as (w' & Hrun & _ & Hown & Hfr).
  exists w'. split; [done|]. split; [done|]. split; [done|].
  exists (ks ++ [CallAddObserver c o]). unfold runCalls in *.
  clear Hwf Hown Hfr Hc. revert Hks. generalize empty_world.
  induction ks as [|k ks IH]; intros w0 Hks; cbn [app forM_].
  - injection Hks as ->. by rewrite (bind_run _ _ _ _ _ Hrun).
  - cbn [forM_] in Hks.
    destruct (runCall Π k w0) as [[[] w1]|] eqn:Hk; [|by rewrite bind_panic in Hks].
    rewrite (bind_run _ _ _ _ _ Hk) in Hks. rewrite (bind_run _ _ _ _ _ Hk). by apply IH.
Qed.

(** X14. No call of the package changes a container that is already
    there, except for its observer list: after any program that does not
    panic, every container of the world it started in is still there, with
    the identity, the logger and the store it had. *)
Theorem calls_change_only_observer_lists (ks : list Call) (w w' : World) (d : ptr)
    (y : Container) :
  runCalls Π ks w = Some (tt, w') → containers w !! d = Some y →
  ∃ y', containers w' !! d = Some y' ∧
    ID y' = ID y ∧ logger y' = logger y ∧ viper y' = viper y.
Proof.
  intros Hrun Hd. destruct (runCalls_keeps ks w w' Hrun) as [_ Hsame]. by apply Hsame.
Qed.

End programs.

(** *** Instances of the further theorems that have premises *)

Lemma Load_ignores_missing_path_witness :
  Stat memFs "missing.yml" ≠ None ∧
  Load toy (["first.yml"] ++ "missing.yml" :: ["second.yml"]) memFs 0 false empty_world =
  Load toy (["first.yml"] ++ ["second.yml"]) memFs 0 false empty_world.
Proof.
  assert (Stat memFs "missing.yml" ≠ None) as Hp by by vm_compute.
  split; [exact Hp|].
  exact (Load_ignores_missing_path toy ["first.yml"] ["second.yml"] "missing.yml"
           memFs 0 false empty_world Hp).
Defined.

Lemma Load_allow_empty_blank_container_witness :
  Forall (λ p, Stat memFs p ≠ None) ["missing.yml"; "nope.yml"] ∧
  ∃ c w' x v,
    Load toy ["missing.yml"; "nope.yml"] memFs 0 true empty_world = Some ((Some c, None), w') ∧
    containers w' !! c = Some x ∧ viper x = Some v ∧
    ID x = "" ∧ logger x = 0 ∧
    v_config v = ∅ ∧ v_fs v = memFs ∧
    v_watching v = None ∧ v_onConfigChange v = None ∧
    observers_of w' c = Some [] ∧
    log w' = log empty_world ++ [mkLog 0 Debug "Loading configuration"].
Proof.
  assert (Forall (λ p, Stat memFs p ≠ None) ["missing.yml"; "nope.yml"]) as Hnone
    by (repeat constructor; by vm_compute).
  split; [exact Hnone|].
  exact (Load_allow_empty_blank_container toy _ memFs 0 empty_world Hnone).
Defined.

Lemma LoadEmbed_decode_failures_not_fatal_witness :
  Forall2 (λ p content, twoAssets p = Ok content)
    ["logging.yaml"; "invalid.yaml"] ["first"; "{{"] ∧
  ∃ c w',
    LoadEmbed toy ["logging.yaml"; "invalid.yaml"] twoAssets 0 empty_world
      = Some ((Some c, None), w') ∧
    holds w' c firstYaml ∧
    reads w' = ["logging.yaml"; "invalid.yaml"] ∧
    filter (λ r, lr_level r = Warn) (log w') =
      [warnRecord 0 (ConfigParseError "cannot unmarshal")].
Proof.
  assert (Forall2 (λ p content, twoAssets p = Ok content)
            ["logging.yaml"; "invalid.yaml"] ["first"; "{{"]) as Hok
    by by repeat constructor.
  split; [exact Hok|].
  destruct (LoadEmbed_decode_failures_not_fatal toy _ _ twoAssets 0 empty_world Hok)
    as (c & w' & Hrun & Hholds & Hreads & Hlog).
  exists c, w'. split; [exact Hrun|]. split; [exact Hholds|]. split; [exact Hreads|].
  rewrite Hlog. reflexivity.
Defined.

Lemma Load_watch_counts_existing_paths_witness :
  ¬ (false = false ∧ Forall (λ p, Stat memFs p ≠ None) ["first.yml"; "missing.yml"]) ∧
  ∃ c w' x v,
    Load toy ["first.yml"; "missing.yml"] memFs 0 false empty_world
      = Some ((Some c, None), w') ∧
    containers w' !! c = Some x ∧ viper x = Some v ∧
    v_onConfigChange v = None ∧ v_watching v = None.
Proof.
  assert (¬ (false = false ∧
             Forall (λ p, Stat memFs p ≠ None) ["first.yml"; "missing.yml"])) as Hgo.
  { intros [_ H]. inversion_clear H as [|? ? H1 _]. by apply H1. }
  split; [exact Hgo|].
  exact (Load_watch_counts_existing_paths toy _ memFs 0 false empty_world Hgo).
Defined.




Lemma AddObserver_keeps_registration_order_witness :
  wf_world observedWorld ∧
  observers_of observedWorld 0 = Some [Impl 1; Observer 2] ∧
  ∃ w' s,
    registerEach toy 0 [Impl 3; Observer 4; Impl 5] observedWorld = Some (tt, w') ∧
    GetObservers 0 w' = Some (s, w') ∧
    slice_elems w' s = [Impl 1; Observer 2] ++ [Impl 3; Observer 4; Impl 5] ∧
    s_len s = length [Impl 1; Observer 2] + length [Impl 3; Observer 4; Impl 5] ∧
    (∀ d, d ≠ 0 → observers_of w' d = observers_of observedWorld d) ∧
    wf_world w'.
Proof.
  assert (wf_world observedWorld) as Hwf
    by (apply (bool_decide_unpack (wf_world observedWorld)); by vm_compute).
  split; [exact Hwf|]. split; [reflexivity|].
  exact (AddObserver_keeps_registration_order toy observedWorld 0 [Impl 1; Observer 2]
           [Impl 3; Observer 4; Impl 5] Hwf eq_refl).
Defined.

Lemma AddObserverFunc_is_run_each_round_witness :
  wf_world observedWorld ∧
  ∃ x, containers observedWorld !! 0 = Some x ∧
  ∃ w', AddObserverFunc toy 0 2 observedWorld = Some (tt, w') ∧
    ∀ s0 s, onChange 0 w' = Some s0 → steps 0 7 s0 s → pc s = Exited →
      length (filter (λ k, k = (2, 0, 7)) (handlerCalls (calls s))) =
      S (length (filter (λ o, o = Observer 2) (slice_elems observedWorld (observers x)))).
Proof.
  assert (wf_world observedWorld) as Hwf
    by (apply (bool_decide_unpack (wf_world observedWorld)); by vm_compute).
  split; [exact Hwf|]. eexists. split; [reflexivity|].
  exact (AddObserverFunc_is_run_each_round toy 0 7 observedWorld _ 2 Hwf eq_refl).
Defined.

Lemma round_calls_only_the_snapshot_witness :
  onChange 0 observedWorld = Some (init [Impl 1; Observer 2]) ∧
  steps 0 7 (init [Impl 1; Observer 2]) (finished 0 7 [Impl 1; Observer 2] []) ∧
  ∃ obs later, observers_of observedWorld 0 = Some obs ∧
    registry (finished 0 7 [Impl 1; Observer 2] []) = obs ++ later ∧
    calls (finished 0 7 [Impl 1; Observer 2] []) ⊆+ (λ o, (o, 0, 7)) <$> obs.
Proof.
  assert (steps 0 7 (init [Impl 1; Observer 2]) (finished 0 7 [Impl 1; Observer 2] []))
    as Hrun by (apply round_can_finish; by repeat constructor).
  split; [reflexivity|]. split; [exact Hrun|].
  exact (round_calls_only_the_snapshot 0 7 observedWorld (init [Impl 1; Observer 2])
           (finished 0 7 [Impl 1; Observer 2] []) eq_refl Hrun).
Defined.

Lemma nil_observer_blocks_the_round_witness :
  wf_world observedWorld ∧
  ∃ x, containers observedWorld !! 0 = Some x ∧
  ∃ w', AddObserver toy 0 ONil observedWorld = Some (tt, w') ∧
    ∀ s0 s, onChange 0 w' = Some s0 → steps 0 7 s0 s → pc s ≠ Exited.
Proof.
  assert (wf_world observedWorld) as Hwf
    by (apply (bool_decide_unpack (wf_world observedWorld)); by vm_compute).
  split; [exact Hwf|]. eexists. split; [reflexivity|].
  exact (nil_observer_blocks_the_round toy 0 7 observedWorld _ Hwf eq_refl).
Defined.

Lemma built_worlds_keep_observers_apart_witness :
  ∃ w x,
    built toy w ∧ containers w !! 1 = Some x ∧
    ∃ w', AddObserver toy 1 (Impl 9) w = Some (tt, w') ∧
      observers_of w' 1 = Some (slice_elems w (observers x) ++ [Impl 9]) ∧
      (∀ d, d ≠ 1 → observers_of w' d = observers_of w d) ∧
      built toy w'.
Proof.
  destruct (runCalls toy smallProgram empty_world) as [[[] w]|] eqn:Hw;
    [|vm_compute in Hw; discriminate].
  assert (∃ x, containers w !! 1 = Some x) as [x Hx].
  { vm_compute in Hw. injection Hw as <-. by eexists. }
  assert (built toy w) as Hb by by exists smallProgram.
  exists w, x. split; [exact Hb|]. split; [exact Hx|].
  exact (built_worlds_keep_observers_apart toy w 1 x (Impl 9) Hb Hx).
Defined.

Lemma calls_change_only_observer_lists_witness :
  ∃ w' y,
    runCalls toy [CallSub 0 "yaml"; CallAddObserver 0 (Impl 1); CallToJSON 1] loadedWorld
      = Some (tt, w') ∧
    containers loadedWorld !! 0 = Some y ∧
    ∃ y', containers w' !! 0 = Some y' ∧
      ID y' = ID y ∧ logger y' = logger y ∧ viper y' = viper y.
Proof.
  destruct (runCalls toy [CallSub 0 "yaml"; CallAddObserver 0 (Impl 1); CallToJSON 1]
              loadedWorld) as [[[] w']|] eqn:Hw;
    [|vm_compute in Hw; discriminate].
  exists w'. eexists. split; [reflexivity|]. split; [reflexivity|].
  exact (calls_change_only_observer_lists toy _ loadedWorld w' 0 _ Hw eq_refl).
Defined.
